(** * Image service: the annotation pipeline, its overlay renderer and Replace

    A shallow embedding of the two Express applications of the repository:
    the application backed by the MySQL pool (upload, replace and annotate
    over the [images] table) and the application that keeps its images as
    files ([src/index.js]).  Both build the same SVG overlay from the JSON
    body of an annotate request.

    JavaScript values are embedded as they reach the handlers after
    [express.json()]: null, booleans, numbers, strings, arrays and objects,
    plus [undefined] for absent properties.  Three restrictions of the
    embedding, all on data and none on control flow:
    - numbers are the integers and the three non-finite values (fractional
      doubles and the negative zero are not represented); [Number::toString]
      of an integer is its decimal numeral, which is what JavaScript prints
      for magnitudes up to 2^53.  Above 2^53 not every integer is a double,
      JavaScript prints the shortest digits that read back as the same
      double, and from 10^21 on it prints in exponent form: there the
      embedding departs from JavaScript, and what is stated about printed
      numbers is to be read for magnitudes up to 2^53 (ids assigned by the
      store and dimensions of images are far below);
    - strings are sequences of code units below 256;
    - the conversion of a string to a number ([Number(s)], and the
      conversion inside [<]) is a primitive of the runtime, taken as the
      operation [StringToNumber] of the class [JSRuntime]. *)

From stdpp Require Import gmap strings list pretty.
From Stdlib Require Import ZArith Ascii Strings.Byte.

Local Open Scope Z_scope.

(** ** JavaScript values *)

Inductive number :=
| NaN
| PosInfinity
| NegInfinity
| Fin (z : Z).

#[warnings="-register-all"]
Inductive value :=
| JUndefined
| JNull
| JBool (b : bool)
| JNum (n : number)
| JStr (s : string)
| JArr (items : list value)
| JObj (props : list (string * value)).

(** A completion: the value of an expression, or a thrown exception (every
    exception of the embedded code is a [TypeError], and the handlers'
    [catch] does not look at it). *)
Inductive completion (A : Type) :=
| Normal (a : A)
| Throw.
Arguments Normal {A} a.
Arguments Throw {A}.

Global Instance completion_ret : MRet completion := @Normal.

Global Instance completion_bind : MBind completion := λ A B k c,
  match c with
  | Normal a => k a
  | Throw => Throw
  end.

Class JSRuntime := { StringToNumber : string -> number }.

Definition dq : string := String (ascii_of_nat 34) EmptyString.

(** [Number.isFinite] *)
Definition isFinite (n : number) : bool :=
  match n with
  | Fin _ => true
  | _ => false
  end.

(** [Number::toString] on the integers: the decimal numeral, as JavaScript
    prints it for magnitudes up to 2^53. *)
Definition number_to_string (n : number) : string :=
  match n with
  | NaN => "NaN"
  | PosInfinity => "Infinity"
  | NegInfinity => "-Infinity"
  | Fin z => pretty z
  end.

(** [ToBoolean] *)
Definition truthy (v : value) : bool :=
  match v with
  | JUndefined | JNull => false
  | JBool b => b
  | JNum (Fin 0) | JNum NaN => false
  | JNum _ => true
  | JStr EmptyString => false
  | JStr _ => true
  | JArr _ | JObj _ => true
  end.

(** [a || b] *)
Definition js_or (a b : value) : value := if truthy a then a else b.

(** [a ?? b] *)
Definition js_nullish (a b : value) : value :=
  match a with
  | JUndefined | JNull => b
  | _ => a
  end.

(** The own property [name] of an object built by [JSON.parse]: of two
    members with the same key the later one is kept. *)
Fixpoint own (name : string) (props : list (string * value)) : option value :=
  match props with
  | [] => None
  | (k, v) :: rest =>
      match own name rest with
      | Some w => Some w
      | None => if String.eqb k name then Some v else None
      end
  end.

(** [v.name], for the property names the handlers read ([strokes], [texts],
    [points], [length], [color], [width], [x], [y], [text], [fontSize]):
    none of them is inherited from a prototype except [length] of strings
    and arrays. *)
Definition get (v : value) (name : string) : completion value :=
  match v with
  | JUndefined | JNull => Throw
  | JBool _ | JNum _ => Normal JUndefined
  | JStr s =>
      Normal (if String.eqb name "length"
              then JNum (Fin (Z.of_nat (String.length s))) else JUndefined)
  | JArr items =>
      Normal (if String.eqb name "length"
              then JNum (Fin (Z.of_nat (length items))) else JUndefined)
  | JObj props =>
      Normal (match own name props with Some w => w | None => JUndefined end)
  end.

(** [v?.name] *)
Definition get_opt (v : value) (name : string) : completion value :=
  match v with
  | JUndefined | JNull => Normal JUndefined
  | _ => get v name
  end.

(** [Array.prototype.join] on strings already converted *)
Fixpoint join (sep : string) (parts : list string) : string :=
  match parts with
  | [] => EmptyString
  | [s] => s
  | s :: rest => s +:+ sep +:+ join sep rest
  end.

(** [ToString], as a template literal and [String(v)] apply it.  An array
    goes through [Array.prototype.join] with the separator [","], where
    [undefined] and [null] items give the empty string.  An object parsed
    from JSON gives ["[object Object]"] unless it has an own [toString]
    member: that member is not callable, [valueOf] does not return a
    primitive, and the conversion throws. *)
Fixpoint to_string (v : value) : completion string :=
  match v with
  | JUndefined => Normal "undefined"
  | JNull => Normal "null"
  | JBool true => Normal "true"
  | JBool false => Normal "false"
  | JNum n => Normal (number_to_string n)
  | JStr s => Normal s
  | JArr items =>
      parts ← (fix items_to_strings (l : list value) : completion (list string) :=
                  match l with
                  | [] => Normal []
                  | item :: rest =>
                      s ← match item with
                          | JUndefined | JNull => Normal EmptyString
                          | _ => to_string item
                          end;
                      ss ← items_to_strings rest;
                      Normal (s :: ss)
                  end) items;
      Normal (join "," parts)
  | JObj props =>
      match own "toString" props with
      | Some _ => Throw
      | None => Normal "[object Object]"
      end
  end.

(** [x < 2] on numbers *)
Definition number_lt2 (n : number) : bool :=
  match n with
  | NaN | PosInfinity => false
  | NegInfinity => true
  | Fin z => z <? 2
  end.

(** [v < 2]: [v] is converted to a primitive and then to a number. *)
Definition lt2 `{JSRuntime} (v : value) : completion bool :=
  match v with
  | JUndefined => Normal false
  | JNull | JBool _ => Normal true
  | JNum n => Normal (number_lt2 n)
  | JStr s => Normal (number_lt2 (StringToNumber s))
  | JArr _ | JObj _ =>
      s ← to_string v;
      Normal (number_lt2 (StringToNumber s))
  end.

(** ** The pieces of the overlay document

    The loops of the two annotate handlers have the same bodies after their
    guards; the bodies are embedded once. *)

(** [s.replace(/c/g, rep)] for a pattern of one character and a replacement
    without [$]. *)
Fixpoint replace_all (c : ascii) (rep : string) (s : string) : string :=
  match s with
  | EmptyString => EmptyString
  | String a rest =>
      if Ascii.eqb a c then rep +:+ replace_all c rep rest
      else String a (replace_all c rep rest)
  end.

(** [String(text).replace(/&/g, "&amp;").replace(/</g, "&lt;")] *)
Definition escape (s : string) : string :=
  replace_all "<" "&lt;" (replace_all "&" "&amp;" s).

(** [`${p.x} ${p.y}`] *)
Definition point_text (p : value) : completion string :=
  px ← get p "x";
  sx ← to_string px;
  py ← get p "y";
  sy ← to_string py;
  Normal (sx +:+ " " +:+ sy).

(** The callback of [points.map]: the point at index 0 gives its two
    coordinates, every later one is prefixed by the line command. *)
Definition point_command (p : value) (i : nat) : completion string :=
  t ← point_text p;
  Normal (match i with O => t | S _ => "L " +:+ t end).

Fixpoint map_points (i : nat) (points : list value) : completion (list string) :=
  match points with
  | [] => Normal []
  | p :: rest =>
      s ← point_command p i;
      ss ← map_points (S i) rest;
      Normal (s :: ss)
  end.

(** ["M " + stroke.points.map(...).join(" ")]; only an array has a callable
    [map]. *)
Definition path_d (points : value) : completion string :=
  match points with
  | JArr items =>
      parts ← map_points 0 items;
      Normal ("M " +:+ join " " parts)
  | _ => Throw
  end.

Definition path_markup (d color w : string) : string :=
  "<path d=" +:+ dq +:+ d +:+ dq +:+
  " fill=" +:+ dq +:+ "none" +:+ dq +:+
  " stroke=" +:+ dq +:+ color +:+ dq +:+
  " stroke-width=" +:+ dq +:+ w +:+ dq +:+
  " stroke-linecap=" +:+ dq +:+ "round" +:+ dq +:+
  " stroke-linejoin=" +:+ dq +:+ "round" +:+ dq +:+ " />".

(** The body of the stroke loop after its guard. *)
Definition stroke_path (stroke : value) : completion string :=
  c ← get stroke "color";
  let color := js_or c (JStr "#ff0000") in
  wv ← get stroke "width";
  let w := js_or wv (JNum (Fin 4)) in
  points ← get stroke "points";
  d ← path_d points;
  sc ← to_string color;
  sw ← to_string w;
  Normal (path_markup d sc sw).

Definition text_markup (x y color fontSize escaped : string) : string :=
  "<text x=" +:+ dq +:+ x +:+ dq +:+
  " y=" +:+ dq +:+ y +:+ dq +:+
  " fill=" +:+ dq +:+ color +:+ dq +:+
  " font-size=" +:+ dq +:+ fontSize +:+ dq +:+
  " font-family=" +:+ dq +:+ "Arial, sans-serif" +:+ dq +:+ ">" +:+
  escaped +:+ "</text>".

(** The body of the text loop after its guard. *)
Definition text_label (t : value) : completion string :=
  xv ← get t "x";
  let x := js_nullish xv (JNum (Fin 20)) in
  yv ← get t "y";
  let y := js_nullish yv (JNum (Fin 20)) in
  c ← get t "color";
  let color := js_or c (JStr "#00ff00") in
  f ← get t "fontSize";
  let fontSize := js_or f (JNum (Fin 24)) in
  tv ← get t "text";
  s ← to_string tv;
  let escaped := escape s in
  sx ← to_string x;
  sy ← to_string y;
  sc ← to_string color;
  sf ← to_string fontSize;
  Normal (text_markup sx sy sc sf escaped).

(** What [sharp(...).metadata()] resolves to, as far as the handlers read
    it: both properties are optional. *)
Record metadata := { meta_width : option number; meta_height : option number }.

Definition of_optional (o : option number) : value :=
  match o with
  | Some n => JNum n
  | None => JUndefined
  end.

(** [meta.width || 1024] and [meta.height || 768] *)
Definition canvas_width (meta : metadata) : value :=
  js_or (of_optional (meta_width meta)) (JNum (Fin 1024)).
Definition canvas_height (meta : metadata) : value :=
  js_or (of_optional (meta_height meta)) (JNum (Fin 768)).

Definition svg_open (width height : string) : string :=
  "<svg width=" +:+ dq +:+ width +:+ dq +:+
  " height=" +:+ dq +:+ height +:+ dq +:+
  " viewBox=" +:+ dq +:+ "0 0 " +:+ width +:+ " " +:+ height +:+ dq +:+
  " xmlns=" +:+ dq +:+ "http://www.w3.org/2000/svg" +:+ dq +:+ ">".

Definition svg_close : string := "</svg>".

(** The first entry of the [svg] array. *)
Definition svg_header (meta : metadata) : completion string :=
  w ← to_string (canvas_width meta);
  h ← to_string (canvas_height meta);
  Normal (svg_open w h).

(** A loop [for (const e of entries) { if (guard) continue; svg.push(...) }]:
    [body] gives [None] where the source says [continue] and the pushed
    entry otherwise; a throw leaves the loop. *)
Fixpoint push_each (body : value -> completion (option string))
    (svg : list string) (entries : list value) : completion (list string) :=
  match entries with
  | [] => Normal svg
  | e :: rest =>
      r ← body e;
      match r with
      | None => push_each body svg rest
      | Some el => push_each body (svg ++ [el]) rest
      end
  end.

(** ** The overlay of the application on the MySQL pool *)

Module Db.

(** [const body = req.body || {}] *)
Definition request_body (req_body : value) : value := js_or req_body (JObj []).

(** [Array.isArray(v) ? v : []] *)
Definition array_or_empty (v : value) : list value :=
  match v with
  | JArr items => items
  | _ => []
  end.

Definition request_strokes (req_body : value) : completion (list value) :=
  v ← get (request_body req_body) "strokes";
  Normal (array_or_empty v).

Definition request_texts (req_body : value) : completion (list value) :=
  v ← get (request_body req_body) "texts";
  Normal (array_or_empty v).

(** [if (!stroke?.points || stroke.points.length < 2) continue;] *)
Definition skip_stroke `{JSRuntime} (stroke : value) : completion bool :=
  points ← get_opt stroke "points";
  if negb (truthy points) then Normal true
  else
    len ← get points "length";
    lt2 len.

Definition stroke_entry `{JSRuntime} (stroke : value) : completion (option string) :=
  skip ← skip_stroke stroke;
  if (skip : bool) then Normal None
  else
    el ← stroke_path stroke;
    Normal (Some el).

(** [if (!t?.text) continue;] *)
Definition skip_text (t : value) : completion bool :=
  text ← get_opt t "text";
  Normal (negb (truthy text)).

Definition text_entry (t : value) : completion (option string) :=
  skip ← skip_text t;
  if (skip : bool) then Normal None
  else
    el ← text_label t;
    Normal (Some el).

(** The [svg] array from its first entry to [svg.push("</svg>")]. *)
Definition render `{JSRuntime} (meta : metadata) (strokes texts : list value)
  : completion (list string) :=
  header ← svg_header meta;
  svg1 ← push_each stroke_entry [header] strokes;
  svg2 ← push_each text_entry svg1 texts;
  Normal (svg2 ++ [svg_close]).

(** The overlay of a request body. *)
Definition overlay `{JSRuntime} (meta : metadata) (req_body : value)
  : completion (list string) :=
  strokes ← request_strokes req_body;
  texts ← request_texts req_body;
  render meta strokes texts.

End Db.

(** ** The overlay of the application on files ([src/index.js]) *)

Module Fs.

(** A destructuring default: [= []] applies to [undefined] only. *)
Definition default_empty (v : value) : value :=
  match v with
  | JUndefined => JArr []
  | _ => v
  end.

(** [const { strokes = [], texts = [] } = req.body || {}] *)
Definition request_strokes (req_body : value) : completion value :=
  v ← get (js_or req_body (JObj [])) "strokes";
  Normal (default_empty v).

Definition request_texts (req_body : value) : completion value :=
  v ← get (js_or req_body (JObj [])) "texts";
  Normal (default_empty v).

(** The entries [for ... of] visits: the items of an array, the
    characters of a string; nothing else that JSON gives is iterable. *)
Definition iterate (v : value) : completion (list value) :=
  match v with
  | JArr items => Normal items
  | JStr s => Normal ((λ c, JStr (String c EmptyString)) <$> String.list_ascii_of_string s)
  | _ => Throw
  end.

(** [if (!stroke.points || stroke.points.length < 2) continue;] *)
Definition skip_stroke `{JSRuntime} (stroke : value) : completion bool :=
  points ← get stroke "points";
  if negb (truthy points) then Normal true
  else
    len ← get points "length";
    lt2 len.

Definition stroke_entry `{JSRuntime} (stroke : value) : completion (option string) :=
  skip ← skip_stroke stroke;
  if (skip : bool) then Normal None
  else
    el ← stroke_path stroke;
    Normal (Some el).

(** [if (!t.text) continue;] *)
Definition skip_text (t : value) : completion bool :=
  text ← get t "text";
  Normal (negb (truthy text)).

Definition text_entry (t : value) : completion (option string) :=
  skip ← skip_text t;
  if (skip : bool) then Normal None
  else
    el ← text_label t;
    Normal (Some el).

(** The [svgParts] array of a request body. *)
Definition overlay `{JSRuntime} (meta : metadata) (req_body : value)
  : completion (list string) :=
  strokes ← request_strokes req_body;
  texts ← request_texts req_body;
  header ← svg_header meta;
  stroke_list ← iterate strokes;
  svg1 ← push_each stroke_entry [header] stroke_list;
  text_list ← iterate texts;
  svg2 ← push_each text_entry svg1 text_list;
  Normal (svg2 ++ [svg_close]).

End Fs.

(** ** The image store and the codec *)

(** Modelled from the spec: the [images] table (its declaration is not among
    the sources).  A record has the columns the statements of the handlers
    name; its [id] is the key, an integer the store assigns on creation and
    never reuses, here the next value of a counter as [AUTO_INCREMENT]
    gives it.  A statement that rejects changes nothing. *)
Record image := {
  content_type : string;
  original_name : option string;
  data : list byte;
  original_image_id : option Z
}.

Record store := {
  images : gmap Z image;
  next_id : Z
}.

(** Every id in use was assigned by the counter. *)
Definition store_wf (st : store) : Prop :=
  ∀ k r, images st !! k = Some r → k < next_id st.

(** Which statements of the pool reject during one request. *)
Record pool_faults := {
  select_fails : bool;
  insert_fails : bool;
  update_fails : bool
}.

Definition no_faults : pool_faults :=
  {| select_fails := false; insert_fails := false; update_fails := false |}.

(** The capability of [sharp] the handlers use: reading the metadata,
    re-encoding to PNG, and compositing an SVG buffer over an image and
    encoding the result as PNG.  Each may reject. *)
Class Sharp := {
  sharp_metadata : list byte → completion metadata;
  sharp_png : list byte → completion (list byte);
  sharp_composite_png : list byte → string → completion (list byte)
}.

(** The body of a [try] block: it runs on the store, and a throw leaves the
    store as it is at the throw. *)
Definition io (A : Type) : Type := store → completion A * store.

Global Instance io_ret : MRet io := λ A a st, (Normal a, st).

Global Instance io_bind : MBind io := λ A B k m st,
  match m st with
  | (Normal a, st') => k a st'
  | (Throw, st') => (Throw, st')
  end.

Definition lift {A} (c : completion A) : io A := λ st, (c, st).

(** The parameter of [WHERE id = ?] and of the column [original_image_id]:
    a number that passed [Number.isFinite]. *)
Definition id_column (n : number) : option Z :=
  match n with
  | Fin z => Some z
  | _ => None
  end.

(** [SELECT ... FROM images WHERE id = ?] *)
Definition select_image (f : pool_faults) (id : number) : io (list image) := λ st,
  if select_fails f then (Throw, st)
  else (Normal (match id_column id ≫= (λ z, images st !! z) with
                | Some r => [r]
                | None => []
                end), st).

(** [INSERT INTO images (content_type, original_name, data, original_image_id)],
    giving [insertId]. *)
Definition insert_image (f : pool_faults) (r : image) : io Z := λ st,
  if insert_fails f then (Throw, st)
  else (Normal (next_id st),
        {| images := <[next_id st := r]> (images st);
           next_id := next_id st + 1 |}).

(** [UPDATE images SET content_type = ?, data = ?, original_name = ? WHERE id = ?] *)
Definition update_image (f : pool_faults) (ct : string) (bytes : list byte)
    (name : option string) (id : number) : io unit := λ st,
  if update_fails f then (Throw, st)
  else (Normal (),
        match id_column id with
        | Some z =>
            {| images := alter (λ r, {| content_type := ct;
                                        original_name := name;
                                        data := bytes;
                                        original_image_id := original_image_id r |})
                               z (images st);
               next_id := next_id st |}
        | None => st
        end).

(** ** The handlers *)

(** [res.status(status).json(json)] *)
Record response := { status : Z; json : value }.

Definition message (code : Z) (text : string) : response :=
  {| status := code; json := JObj [("message", JStr text)] |}.

Definition API : string := "/api/images".

(** [`${API}/${id}/raw`] *)
Definition raw_url (id : number) : string :=
  API +:+ "/" +:+ number_to_string id +:+ "/raw".

(** [req.file] of multer's memory storage *)
Record upload_file := { buffer : list byte; originalname : string }.

(** [name || fallback] on a string *)
Definition name_or (name : string) (fallback : option string) : option string :=
  match name with
  | EmptyString => fallback
  | _ => Some name
  end.

(** [original.originalName || null] on a column that may be [NULL] *)
Definition inherited_name (name : option string) : option string :=
  match name with
  | Some s => name_or s None
  | None => None
  end.

Section Handlers.
Context `{JSRuntime} `{Sharp}.

(** [app.post(API, upload.single("image"), ...)] *)
Definition upload_try (f : pool_faults) (file : option upload_file) : io response :=
  match file with
  | None => mret (message 400 "No file uploaded")
  | Some file =>
      pngBuffer ← lift (sharp_png (buffer file));
      id ← insert_image f {| content_type := "image/png";
                             original_name := name_or (originalname file) None;
                             data := pngBuffer;
                             original_image_id := None |};
      mret {| status := 201;
              json := JObj [("id", JNum (Fin id));
                            ("url", JStr (raw_url (Fin id)))] |}
  end.

Definition upload (f : pool_faults) (file : option upload_file) (st : store)
  : response * store :=
  match upload_try f file st with
  | (Normal r, st') => (r, st')
  | (Throw, st') => (message 500 "Failed to upload image", st')
  end.

(** [app.put(`${API}/:id`, upload.single("image"), ...)] *)
Definition replace_try (f : pool_faults) (id_param : string)
    (file : option upload_file) : io response :=
  let id := StringToNumber id_param in
  if negb (isFinite id) then mret (message 400 "Invalid image id")
  else
    match file with
    | None => mret (message 400 "No file uploaded")
    | Some file =>
        existing ← select_image f id;
        match existing with
        | [] => mret (message 404 "Image not found")
        | _ :: _ =>
            pngBuffer ← lift (sharp_png (buffer file));
            _ ← update_image f "image/png" pngBuffer
                  (name_or (originalname file) (Some "edited.png")) id;
            mret {| status := 200;
                    json := JObj [("id", JNum id);
                                  ("url", JStr (raw_url id));
                                  ("updated", JBool true)] |}
        end
    end.

Definition replace (f : pool_faults) (id_param : string)
    (file : option upload_file) (st : store) : response * store :=
  match replace_try f id_param file st with
  | (Normal r, st') => (r, st')
  | (Throw, st') => (message 500 "Failed to replace image", st')
  end.

(** [app.post(`${API}/:id/annotate`, ...)] *)
Definition annotate_try (f : pool_faults) (id_param : string)
    (req_body : value) : io response :=
  let originalId := StringToNumber id_param in
  if negb (isFinite originalId) then mret (message 400 "Invalid image id")
  else
    strokes ← lift (Db.request_strokes req_body);
    texts ← lift (Db.request_texts req_body);
    rows ← select_image f originalId;
    match rows with
    | [] => mret (message 404 "Image not found")
    | original :: _ =>
        meta ← lift (sharp_metadata (data original));
        svg ← lift (Db.render meta strokes texts);
        annotatedBuffer ← lift (sharp_composite_png (data original)
                                  (join EmptyString svg));
        newId ← insert_image f {| content_type := "image/png";
                                  original_name := inherited_name (original_name original);
                                  data := annotatedBuffer;
                                  original_image_id := id_column originalId |};
        mret {| status := 201;
                json := JObj [("id", JNum (Fin newId));
                              ("url", JStr (raw_url (Fin newId)));
                              ("originalImageId", JNum originalId)] |}
    end.

Definition annotate (f : pool_faults) (id_param : string)
    (req_body : value) (st : store) : response * store :=
  match annotate_try f id_param req_body st with
  | (Normal r, st') => (r, st')
  | (Throw, st') => (message 500 "Failed to annotate image", st')
  end.

End Handlers.

(** ** Notions of the specification *)

(** The record [annotate] inserts for the source [src] with id [z]. *)
Definition annotated_image (z : Z) (src : image) (bytes : list byte) : image :=
  {| content_type := "image/png";
     original_name := inherited_name (original_name src);
     data := bytes;
     original_image_id := Some z |}.

(** The entries of the [svg] array by kind. *)
Definition is_path (el : string) : bool := String.prefix "<path " el.
Definition is_text (el : string) : bool := String.prefix "<text " el.

(** A stroke with at least 2 points: its [points] is an array of 2 items or
    more. *)
Definition two_points (stroke : value) : bool :=
  match get_opt stroke "points" with
  | Normal (JArr items) => bool_decide (2 ≤ length items)%nat
  | _ => false
  end.

(** A label with text: its [text] is not missing and not empty (for a
    string, [truthy] is being non-empty; a value that is not a string counts
    as JavaScript's [!t.text] counts it). *)
Definition labelled (t : value) : bool :=
  match get_opt t "text" with
  | Normal text => truthy text
  | Throw => false
  end.

(** The entries a loop pushes, in the order of the request. *)
Fixpoint pushed (body : value -> completion (option string))
    (entries : list value) : completion (list string) :=
  match entries with
  | [] => Normal []
  | e :: rest =>
      r ← body e;
      els ← pushed body rest;
      Normal (match r with None => els | Some el => el :: els end)
  end.

(** The escaping as the specification words it: each character on its own,
    [&] and [<] by their entities and any other character unchanged. *)
Definition escape_char (c : ascii) : string :=
  if Ascii.eqb c "&" then "&amp;"
  else if Ascii.eqb c "<" then "&lt;"
  else String c EmptyString.

Fixpoint escape_each (s : string) : string :=
  match s with
  | EmptyString => EmptyString
  | String c rest => escape_char c +:+ escape_each rest
  end.

(** The path data as the specification words it: a move to the first point
    and a line to each later point, and nothing after the last. *)
Fixpoint line_commands (later : list string) : string :=
  match later with
  | [] => EmptyString
  | t :: rest => " L " +:+ t +:+ line_commands rest
  end.

Definition move_then_lines (first : string) (later : list string) : string :=
  "M " +:+ first +:+ line_commands later.

Definition is_Normal {A} (c : completion A) : bool :=
  match c with
  | Normal _ => true
  | Throw => false
  end.

(** ** Instances for the examples *)

(** A runtime for the examples: its conversion is JavaScript's on the
    strings of decimal digits (the empty string gives 0) and gives [NaN] on
    a string with any other character, which is JavaScript's on the strings
    the examples use. *)
Fixpoint digits_value (acc : Z) (s : string) : number :=
  match s with
  | EmptyString => Fin acc
  | String c rest =>
      let n := Z.of_nat (nat_of_ascii c) in
      if (48 <=? n) && (n <=? 57) then digits_value (10 * acc + (n - 48)) rest
      else NaN
  end.

Definition digits_runtime : JSRuntime := {| StringToNumber := digits_value 0 |}.

(** A codec for the examples: every image is 640 by 480, re-encoding keeps
    the bytes, and compositing appends the bytes of the overlay. *)
Definition sample_sharp : Sharp := {|
  sharp_metadata := λ _, Normal {| meta_width := Some (Fin 640);
                                   meta_height := Some (Fin 480) |};
  sharp_png := λ bytes, Normal bytes;
  sharp_composite_png := λ base overlay, Normal (base ++ String.list_byte_of_string overlay)
|}.

(** A codec that cannot decode anything. *)
Definition broken_sharp : Sharp := {|
  sharp_metadata := λ _, Throw;
  sharp_png := λ _, Throw;
  sharp_composite_png := λ _ _, Throw
|}.

Definition no_metadata : metadata := {| meta_width := None; meta_height := None |}.

Definition sample_image : image := {|
  content_type := "image/png";
  original_name := Some "scan.png";
  data := [x89; x50; x4e; x47];
  original_image_id := None
|}.

Definition sample_store : store := {|
  images := {[ 1 := sample_image ]};
  next_id := 2
|}.

Definition point (x y : Z) : value := JObj [("x", JNum (Fin x)); ("y", JNum (Fin y))].

Definition stroke_A : value :=
  JObj [("points", JArr [point 0 0; point 10 10]); ("color", JStr "#0000ff")].
Definition stroke_B : value :=
  JObj [("points", JArr [point 5 5; point 6 7; point 8 9]); ("width", JNum (Fin 2))].
Definition short_stroke : value := JObj [("points", JArr [point 0 0])].
Definition label_T : value :=
  JObj [("x", JNum (Fin 0)); ("y", JNum (Fin 30)); ("text", JStr "A&B<C")].
Definition empty_label : value := JObj [("text", JStr EmptyString)].

Definition sample_request : value :=
  JObj [("strokes", JArr [stroke_A; short_stroke; stroke_B]);
        ("texts", JArr [empty_label; label_T])].

(** A request with the strokes [A, B] and the text [T]. *)
Definition z_order_request : value :=
  JObj [("strokes", JArr [stroke_A; stroke_B]); ("texts", JArr [label_T])].

Definition path_A : string := path_markup "M 0 0 L 10 10" "#0000ff" "4".
Definition path_B : string := path_markup "M 5 5 L 6 7 L 8 9" "#ff0000" "2".
Definition text_T : string := text_markup "0" "30" "#00ff00" "24" "A&amp;B&lt;C".

(** A request whose [strokes] is [null]. *)
Definition null_strokes_request : value :=
  JObj [("strokes", JNull); ("texts", JArr [])].

(** A request with a stroke whose two points are [null]: reading [p.x]
    throws. *)
Definition null_points_request : value :=
  JObj [("strokes", JArr [JObj [("points", JArr [JNull; JNull])]])].

(** The record [replace] leaves under the id of [old]. *)
Definition replaced_image (old : image) (file : upload_file) (png : list byte) : image :=
  {| content_type := "image/png";
     original_name := name_or (originalname file) (Some "edited.png");
     data := png;
     original_image_id := original_image_id old |}.

Definition derived_image : image := {|
  content_type := "image/png";
  original_name := None;
  data := [x89; x50];
  original_image_id := Some 1
|}.

(** A store with an uploaded image and an annotated image derived from it. *)
Definition linked_store : store := {|
  images := {[ 1 := sample_image; 2 := derived_image ]};
  next_id := 3
|}.

Definition edited_file : upload_file :=
  {| buffer := [x01; x02; x03]; originalname := "edit.jpg" |}.
Definition unnamed_file : upload_file :=
  {| buffer := [x01; x02; x03]; originalname := EmptyString |}.

(** A codec that decodes an image but finds no dimensions in it. *)
Definition blind_sharp : Sharp := {|
  sharp_metadata := λ _, Normal no_metadata;
  sharp_png := λ bytes, Normal bytes;
  sharp_composite_png := λ base overlay, Normal (base ++ String.list_byte_of_string overlay)
|}.

(** Strokes and labels with falsy and with zero fields. *)
Definition zero_width_stroke : value :=
  JObj [("points", JArr [point 0 0; point 1 1]); ("width", JNum (Fin 0));
        ("color", JStr EmptyString)].
Definition zero_label : value :=
  JObj [("x", JNum (Fin 0)); ("y", JNum (Fin 0)); ("text", JStr "hi");
        ("fontSize", JNum (Fin 0)); ("color", JNull)].
Definition null_xy_label : value :=
  JObj [("x", JNull); ("text", JStr "hi")].
Definition zero_text_label : value := JObj [("text", JNum (Fin 0))].

(** The property [name] of a value that is not [undefined] or [null]. *)
Definition field (v : value) (name : string) : value :=
  match get v name with
  | Normal a => a
  | Throw => JUndefined
  end.

(** Strokes and labels as the data model of the specification types them:
    objects whose fields are absent or primitive, the points of a stroke
    being absent or an array of objects with primitive coordinates. *)
Definition primitive (v : value) : bool :=
  match v with
  | JArr _ | JObj _ => false
  | _ => true
  end.

Definition shaped_point (p : value) : bool :=
  match p with
  | JObj _ => primitive (field p "x") && primitive (field p "y")
  | _ => false
  end.

Definition shaped_stroke (stroke : value) : bool :=
  match stroke with
  | JObj _ =>
      match field stroke "points" with
      | JUndefined | JNull => true
      | JArr items => forallb shaped_point items
      | _ => false
      end
      && primitive (field stroke "color") && primitive (field stroke "width")
  | _ => false
  end.

Definition shaped_label (t : value) : bool :=
  match t with
  | JObj _ =>
      primitive (field t "x") && primitive (field t "y")
      && primitive (field t "color") && primitive (field t "fontSize")
      && primitive (field t "text")
  | _ => false
  end.

(** The command that closes a path, in either case, and the strings that
    hold it. *)
Definition close_command (c : ascii) : bool := Ascii.eqb c "Z" || Ascii.eqb c "z".

Fixpoint has_close (s : string) : bool :=
  match s with
  | EmptyString => false
  | String c rest => close_command c || has_close rest
  end.

(** A point with two numbers as its coordinates. *)
Definition numeric_point (p : value) : bool :=
  match p with
  | JObj _ =>
      match field p "x", field p "y" with
      | JNum _, JNum _ => true
      | _, _ => false
      end
  | _ => false
  end.

(** ** The raw handler and runs of requests *)

(** What a handler sends: JSON through [res.json], or a buffer through
    [res.send]. *)
Inductive payload :=
| JsonBody (v : value)
| DataBody (bytes : list byte).

(** An answer with the headers the handler sets by [res.setHeader]. *)
Record answer := {
  answer_status : Z;
  answer_headers : list (string * string);
  answer_body : payload
}.

Definition json_answer (code : Z) (text : string) : answer :=
  {| answer_status := code;
     answer_headers := [];
     answer_body := JsonBody (JObj [("message", JStr text)]) |}.

(** [img.content_type || "image/png"] *)
Definition content_type_or_png (ct : string) : string :=
  match ct with
  | EmptyString => "image/png"
  | _ => ct
  end.

(** [app.get(`${API}/:id/raw`, ...)] *)
Definition raw_try `{JSRuntime} (f : pool_faults) (id_param : string) : io answer :=
  let id := StringToNumber id_param in
  if negb (isFinite id) then mret (json_answer 400 "Invalid image id")
  else
    rows ← select_image f id;
    match rows with
    | [] => mret (json_answer 404 "Image not found")
    | img :: _ =>
        mret {| answer_status := 200;
                answer_headers := [("Content-Type", content_type_or_png (content_type img));
                                   ("Cache-Control", "no-store")];
                answer_body := DataBody (data img) |}
    end.

Definition raw `{JSRuntime} (f : pool_faults) (id_param : string) (st : store)
  : answer * store :=
  match raw_try f id_param st with
  | (Normal a, st') => (a, st')
  | (Throw, st') => (json_answer 500 "Failed to read image", st')
  end.

(** The requests of the application on the pool, and the store after one
    of them and after a run of them served one after the other, each with
    the faults of the pool during it. *)
Inductive request :=
| Upload (file : option upload_file)
| Raw (id_param : string)
| Replace (id_param : string) (file : option upload_file)
| Annotate (id_param : string) (req_body : value).

Definition serve `{JSRuntime} `{Sharp} (f : pool_faults) (q : request) (st : store) : store :=
  match q with
  | Upload file => (upload f file st).2
  | Raw id_param => (raw f id_param st).2
  | Replace id_param file => (replace f id_param file st).2
  | Annotate id_param req_body => (annotate f id_param req_body st).2
  end.

Fixpoint serve_all `{JSRuntime} `{Sharp} (qs : list (pool_faults * request)) (st : store) : store :=
  match qs with
  | [] => st
  | (f, q) :: rest => serve_all rest (serve f q st)
  end.

(** The table before any insert. *)
Definition empty_store : store := {| images := ∅; next_id := 1 |}.

(** Bytes that came out of the codec. *)
Definition encoded `{Sharp} (bytes : list byte) : Prop :=
  (∃ input, sharp_png input = Normal bytes) ∨
  (∃ base overlay, sharp_composite_png base overlay = Normal bytes).

(** A record as the handlers write it: PNG by type and by bytes, a name
    that is null or not empty, and a parent that is an older record of the
    store. *)
Definition record_sound `{Sharp} (st : store) (k : Z) (r : image) : Prop :=
  content_type r = "image/png" ∧
  original_name r ≠ Some EmptyString ∧
  encoded (data r) ∧
  ∀ p, original_image_id r = Some p → p < k ∧ is_Some (images st !! p).

Definition store_sound `{Sharp} (st : store) : Prop :=
  store_wf st ∧ ∀ k r, images st !! k = Some r → record_sound st k r.

(** The answer 200 that serves [bytes] as PNG. *)
Definition png_answer (bytes : list byte) : answer :=
  {| answer_status := 200;
     answer_headers := [("Content-Type", "image/png"); ("Cache-Control", "no-store")];
     answer_body := DataBody bytes |}.

(** A request of two valid strokes, for a second annotation. *)
Definition second_request : value := JObj [("strokes", JArr [stroke_B])].

(** ** Notions for the two overlays side by side *)

Definition nullish (v : value) : bool :=
  match v with
  | JUndefined | JNull => true
  | _ => false
  end.

(** A field of the body that is absent, or an array with no [null] (or
    [undefined]) among its entries. *)
Definition plain_list (field_value : option value) : bool :=
  match field_value with
  | None => true
  | Some (JArr items) => forallb (λ e, negb (nullish e)) items
  | Some _ => false
  end.

(** Whether the character [c] occurs in [s]. *)
Fixpoint occurs (c : ascii) (s : string) : bool :=
  match s with
  | EmptyString => false
  | String a rest => Ascii.eqb a c || occurs c rest
  end.

(** A request with entries of every kind that is not an object. *)
Definition odd_entries_request : value :=
  JObj [("strokes", JArr [JNum (Fin 3); JStr "ab"; JArr []; stroke_A; JBool true]);
        ("texts", JArr [JStr "x"; label_T])].

(** ** The role check ([src/auth.js]) *)

Module Auth.

(** [SameValueZero] between a required role and a role of the token.
    Arrays and objects are the same only when they are one object, which a
    value of the application and a value decoded from the token never
    are. *)
Definition same_value_zero (a b : value) : bool :=
  match a, b with
  | JUndefined, JUndefined | JNull, JNull => true
  | JBool x, JBool y => Bool.eqb x y
  | JNum NaN, JNum NaN
  | JNum PosInfinity, JNum PosInfinity
  | JNum NegInfinity, JNum NegInfinity => true
  | JNum (Fin x), JNum (Fin y) => bool_decide (x = y)
  | JStr x, JStr y => String.eqb x y
  | _, _ => false
  end.

(** [s.includes(t)] on strings: [t] occurs in [s]. *)
Fixpoint string_includes (t s : string) : bool :=
  match s with
  | EmptyString => String.prefix t EmptyString
  | String _ rest => String.prefix t s || string_includes t rest
  end.

(** [userRoles.includes(role)]: on an array, on a string (after [role] is
    converted to a string); anything else that is truthy has no callable
    [includes]. *)
Definition includes (userRoles role : value) : completion bool :=
  match userRoles with
  | JArr items => Normal (existsb (same_value_zero role) items)
  | JStr s =>
      t ← to_string role;
      Normal (string_includes t s)
  | _ => Throw
  end.

(** [roleArray.some((role) => userRoles.includes(role))] *)
Fixpoint some_included (userRoles : value) (roleArray : list value) : completion bool :=
  match roleArray with
  | [] => Normal false
  | role :: rest =>
      found ← includes userRoles role;
      if (found : bool) then Normal true else some_included userRoles rest
  end.

(** [Array.isArray(roles) ? roles : [roles]] *)
Definition role_array (roles : value) : list value :=
  match roles with
  | JArr items => items
  | _ => [roles]
  end.

(** [req.auth?.roles || []] *)
Definition user_roles (auth : value) : completion value :=
  r ← get_opt auth "roles";
  Normal (js_or r (JArr [])).

Definition forbidden (roleArray : list value) (userRoles : value) : response :=
  {| status := 403;
     json := JObj [("message", JStr "Forbidden: insufficient permissions");
                   ("required", JArr roleArray);
                   ("actual", userRoles)] |}.

(** [requireRole(roles)(req, res, next)] with [req.auth = auth]: [None]
    where the middleware calls [next()], the answer where it replies. *)
Definition requireRole (roles auth : value) : completion (option response) :=
  let roleArray := role_array roles in
  userRoles ← user_roles auth;
  hasRole ← some_included userRoles roleArray;
  if (hasRole : bool) then Normal None
  else Normal (Some (forbidden roleArray userRoles)).

End Auth.

(** A token with two roles, and one whose [roles] is a string. *)
Definition nurse_token : value :=
  JObj [("sub", JStr "u1"); ("roles", JArr [JStr "nurse"; JStr "staff"])].
Definition string_roles_token : value := JObj [("roles", JStr "superadmin")].

(** ** The settings of the pool ([src/db.js]) *)

Module Pool.

(** The options [createPoolFromEnv] passes to [mysql.createPool]. *)
Record options := {
  host : string;
  port : number;
  database : string;
  user : string;
  password : string;
  waitForConnections : bool;
  connectionLimit : Z;
  queueLimit : Z
}.

(** [process.env.NAME || fallback]: a variable is a string or is not set. *)
Definition env_or (env : gmap string string) (name fallback : string) : string :=
  match env !! name with
  | Some (String c rest) => String c rest
  | _ => fallback
  end.

(** [Number(process.env.DB_PORT || 3306)] *)
Definition env_port `{JSRuntime} (env : gmap string string) : number :=
  match env !! "DB_PORT" with
  | Some (String c rest) => StringToNumber (String c rest)
  | _ => Fin 3306
  end.

Definition createPoolFromEnv `{JSRuntime} (env : gmap string string) : options :=
  {| host := env_or env "DB_HOST" "db";
     port := env_port env;
     database := env_or env "DB_NAME" "image_db";
     user := env_or env "DB_USER" "imageapp_user";
     password := env_or env "DB_PASSWORD" (env_or env "DB_PASS" "imagepass");
     waitForConnections := true;
     connectionLimit := 10;
     queueLimit := 0 |}.

End Pool.

(** ** The names of uploaded files ([src/index.js]) *)

Module Files.

(** The characters the class [a-zA-Z0-9-_] holds. *)
Definition safe_char (c : ascii) : bool :=
  let n := nat_of_ascii c in
  ((97 <=? n) && (n <=? 122))%nat || ((65 <=? n) && (n <=? 90))%nat
  || ((48 <=? n) && (n <=? 57))%nat || Ascii.eqb c "-" || Ascii.eqb c "_".

(** [s.replace(/[^a-zA-Z0-9-_]/g, "_")] *)
Fixpoint sanitize (s : string) : string :=
  match s with
  | EmptyString => EmptyString
  | String c rest => String (if safe_char c then c else "_"%char) (sanitize rest)
  end.

(** [s.replace(/\.[^.]+$/, EmptyString)]: the first place where a dot is
    followed, up to the end, by one character or more that are not dots. *)
Fixpoint strip_extension (s : string) : string :=
  match s with
  | EmptyString => EmptyString
  | String c rest =>
      if Ascii.eqb c "." && negb (String.eqb rest EmptyString) && negb (occurs "." rest)
      then EmptyString
      else String c (strip_extension rest)
  end.

(** [path.extname(name) || ".png"] *)
Definition ext_or_png (ext : string) : string :=
  match ext with
  | EmptyString => ".png"
  | _ => ext
  end.

(** The [filename] callback of the disk storage:
    [`${timestamp}-${safeBase}${ext}`], from [Date.now()], from
    [path.basename(file.originalname, ext)] as [base] and from
    [path.extname(file.originalname)] as [ext]. *)
Definition stored_filename (timestamp : Z) (base ext : string) : string :=
  pretty timestamp +:+ "-" +:+ sanitize base +:+ ext_or_png ext.

(** [req.file.filename.replace(/\.[^.]+$/, EmptyString) + ".png"] *)
Definition png_name (filename : string) : string :=
  strip_extension filename +:+ ".png".

End Files.

(** * Properties *)

(** ** Completions *)

Lemma bind_Normal {A B} (c : completion A) (k : A → completion B) (b : B) :
  c ≫= k = Normal b ↔ ∃ a, c = Normal a ∧ k a = Normal b.
Proof.
  destruct c as [a|]; simpl; split.
  - eauto.
  - intros (a' & [= <-] & Hk); exact Hk.
  - discriminate.
  - intros (a' & [=] & _).
Qed.

Lemma bind_Throw {A B} (c : completion A) (k : A → completion B) :
  c = Throw → c ≫= k = Throw.
Proof. intros ->; reflexivity. Qed.

(** Splits every hypothesis [x ← c; k = Normal b]. *)
Ltac inv_bind :=
  repeat match goal with
  | H : _ ≫= _ = Normal _ |- _ =>
      apply bind_Normal in H; destruct H as (? & ? & H)
  | H : Normal _ = Normal _ |- _ => injection H as H
  | H : Throw = Normal _ |- _ => discriminate H
  | H : mret _ = Normal _ |- _ => injection H as H
  end.

Lemma get_opt_get v name a :
  get v name = Normal a → get_opt v name = Normal a.
Proof. destruct v; simpl; congruence. Qed.

Lemma get_truthy_Normal v name : truthy v = true → is_Normal (get v name) = true.
Proof. destruct v; simpl; congruence. Qed.

(** ** The loops *)

Lemma push_each_pushed body entries : ∀ svg,
  push_each body svg entries = (els ← pushed body entries; Normal (svg ++ els)).
Proof.
  induction entries as [|e rest IH]; intros svg; simpl.
  - by rewrite app_nil_r.
  - destruct (body e) as [[el|]|]; simpl; [| |done].
    + rewrite IH. destruct (pushed body rest); simpl; [|done].
      by rewrite <- app_assoc.
    + rewrite IH. by destruct (pushed body rest).
Qed.

(** The pushed entries are, in order, the entries of the request on which
    the body does not [continue]. *)
Lemma pushed_Forall2 body (keep : value → bool) (render : value → completion string) entries :
  (∀ e r, body e = Normal r →
     match r with
     | None => keep e = false
     | Some el => keep e = true ∧ render e = Normal el
     end) →
  ∀ els, pushed body entries = Normal els →
    Forall2 (λ e el, render e = Normal el) (filter (λ e, keep e = true) entries) els.
Proof.
  intros Hbody. induction entries as [|e rest IH]; simpl; intros els Hels.
  - injection Hels as <-. constructor.
  - inv_bind. subst els.
    match goal with Hb : body e = Normal ?r |- _ =>
      specialize (Hbody e r Hb); destruct r as [el|] end.
    + destruct Hbody as [Hk Hr]. rewrite filter_cons_True by done.
      constructor; [done|]. by apply IH.
    + rewrite filter_cons_False by (rewrite Hbody; done). by apply IH.
Qed.

(** ** Kinds of entries *)

Lemma is_path_path_markup d c w : is_path (path_markup d c w) = true.
Proof. reflexivity. Qed.

Lemma is_text_path_markup d c w : is_text (path_markup d c w) = false.
Proof. reflexivity. Qed.

Lemma is_text_text_markup x y c f e : is_text (text_markup x y c f e) = true.
Proof. reflexivity. Qed.

Lemma is_path_text_markup x y c f e : is_path (text_markup x y c f e) = false.
Proof. reflexivity. Qed.

Lemma stroke_path_markup stroke el :
  stroke_path stroke = Normal el → ∃ d c w, el = path_markup d c w.
Proof. unfold stroke_path. intros Hs. inv_bind. subst. eauto. Qed.

Lemma text_label_markup t el :
  text_label t = Normal el → ∃ x y c f e, el = text_markup x y c f e.
Proof. unfold text_label. intros Hs. inv_bind. subst. eauto 10. Qed.

Lemma stroke_path_array stroke el :
  stroke_path stroke = Normal el →
  ∃ items, get stroke "points" = Normal (JArr items).
Proof.
  unfold stroke_path. intros Hs. inv_bind.
  match goal with Hd : path_d ?p = Normal _ |- _ =>
    destruct p; simpl in Hd; try discriminate Hd end.
  eauto.
Qed.

(** ** The guards: which entries are drawn *)

Section Guards.
Context `{JSRuntime}.

Lemma lt2_length (items : list value) :
  get (JArr items) "length" ≫= lt2
  = Normal (negb (bool_decide (2 ≤ length items)%nat)).
Proof.
  simpl. f_equal. case_bool_decide; simpl.
  - apply Z.ltb_ge. lia.
  - apply Z.ltb_lt. lia.
Qed.

(** After the guard, the points either are an array of 2 or more (then the
    stroke is drawn) or the stroke was skipped or the body throws. *)
Lemma guard_two_points (points : value) (skip : bool) :
  (if negb (truthy points) then Normal true
   else len ← get points "length"; lt2 len) = Normal skip →
  match points with
  | JArr items => skip = negb (bool_decide (2 ≤ length items)%nat)
  | _ => True
  end.
Proof.
  destruct points; try done.
  intros Hs. pose proof (lt2_length items) as Hl.
  change (get (JArr items) "length" ≫= lt2 = Normal skip) in Hs.
  rewrite Hl in Hs. by injection Hs.
Qed.

Lemma two_points_array stroke points :
  get_opt stroke "points" = Normal points →
  two_points stroke = match points with
                      | JArr items => bool_decide (2 ≤ length items)%nat
                      | _ => false
                      end.
Proof. unfold two_points. intros ->. by destruct points. Qed.

Lemma stroke_entry_by_guard (lookup : value → string → completion value) stroke r :
  (∀ a, lookup stroke "points" = Normal a → get_opt stroke "points" = Normal a) →
  (skip ← (points ← lookup stroke "points";
           if negb (truthy points) then Normal true
           else len ← get points "length"; lt2 len);
   if (skip : bool) then Normal None
   else el ← stroke_path stroke; Normal (Some el)) = Normal r →
  match r with
  | None => two_points stroke = false
  | Some el => two_points stroke = true ∧ stroke_path stroke = Normal el
  end.
Proof.
  intros Hlookup Hr. inv_bind.
  match goal with Hl : lookup _ _ = Normal ?p |- _ =>
    apply Hlookup in Hl; rename Hl into Hpoints; rename p into points end.
  match goal with Hg : (if negb _ then _ else _) = Normal ?s |- _ =>
    apply guard_two_points in Hg; rename Hg into Hguard; rename s into skip end.
  rewrite (two_points_array _ _ Hpoints).
  destruct skip.
  - injection Hr as <-. destruct points; try done.
    by destruct (bool_decide _).
  - inv_bind. subst r.
    match goal with Hs : stroke_path _ = Normal _ |- _ =>
      split; [|exact Hs];
      destruct (stroke_path_array _ _ Hs) as [items Hitems] end.
    apply get_opt_get in Hitems. rewrite Hitems in Hpoints.
    injection Hpoints as <-. by destruct (bool_decide _).
Qed.

Lemma Db_stroke_entry_spec stroke r :
  Db.stroke_entry stroke = Normal r →
  match r with
  | None => two_points stroke = false
  | Some el => two_points stroke = true ∧ stroke_path stroke = Normal el
  end.
Proof. apply (stroke_entry_by_guard get_opt). auto. Qed.

Lemma Fs_stroke_entry_spec stroke r :
  Fs.stroke_entry stroke = Normal r →
  match r with
  | None => two_points stroke = false
  | Some el => two_points stroke = true ∧ stroke_path stroke = Normal el
  end.
Proof. apply (stroke_entry_by_guard get). apply get_opt_get. Qed.

Lemma text_entry_by_guard (lookup : value → string → completion value) t r :
  (∀ a, lookup t "text" = Normal a → get_opt t "text" = Normal a) →
  (skip ← (text ← lookup t "text"; Normal (negb (truthy text)));
   if (skip : bool) then Normal None
   else el ← text_label t; Normal (Some el)) = Normal r →
  match r with
  | None => labelled t = false
  | Some el => labelled t = true ∧ text_label t = Normal el
  end.
Proof.
  intros Hlookup Hr. inv_bind. subst.
  match goal with Hl : lookup _ _ = Normal ?p |- _ =>
    apply Hlookup in Hl; rename Hl into Htext; rename p into text end.
  unfold labelled. rewrite Htext.
  destruct (truthy text); simpl in Hr; inv_bind; by subst.
Qed.

Lemma Db_text_entry_spec t r :
  Db.text_entry t = Normal r →
  match r with
  | None => labelled t = false
  | Some el => labelled t = true ∧ text_label t = Normal el
  end.
Proof. apply (text_entry_by_guard get_opt). auto. Qed.

Lemma Fs_text_entry_spec t r :
  Fs.text_entry t = Normal r →
  match r with
  | None => labelled t = false
  | Some el => labelled t = true ∧ text_label t = Normal el
  end.
Proof. apply (text_entry_by_guard get). apply get_opt_get. Qed.

End Guards.

(** ** The overlay of the application on the pool *)

Section DbOverlay.
Context `{JSRuntime}.

Lemma svg_header_open meta header :
  svg_header meta = Normal header → ∃ w h, header = svg_open w h.
Proof. unfold svg_header. intros Hh. inv_bind. subst. eauto. Qed.

Lemma Db_request_strokes_total body :
  ∃ strokes, Db.request_strokes body = Normal strokes.
Proof.
  unfold Db.request_strokes, Db.request_body, js_or.
  destruct (truthy body) eqn:Hb.
  - pose proof (get_truthy_Normal body "strokes" Hb) as Hn.
    destruct (get body "strokes"); [simpl; eauto | done].
  - simpl. eauto.
Qed.

Lemma Db_request_texts_total body :
  ∃ texts, Db.request_texts body = Normal texts.
Proof.
  unfold Db.request_texts, Db.request_body, js_or.
  destruct (truthy body) eqn:Hb.
  - pose proof (get_truthy_Normal body "texts" Hb) as Hn.
    destruct (get body "texts"); [simpl; eauto | done].
  - simpl. eauto.
Qed.

Lemma Db_render_structure meta strokes texts svg :
  Db.render meta strokes texts = Normal svg →
  ∃ header paths labels,
    svg_header meta = Normal header ∧
    svg = [header] ++ paths ++ labels ++ [svg_close] ∧
    Forall2 (λ s el, stroke_path s = Normal el)
            (filter (λ s, two_points s = true) strokes) paths ∧
    Forall2 (λ t el, text_label t = Normal el)
            (filter (λ t, labelled t = true) texts) labels.
Proof.
  unfold Db.render. intros Hr. inv_bind.
  repeat match goal with Hp : push_each _ _ _ = Normal _ |- _ =>
    rewrite push_each_pushed in Hp end.
  inv_bind. subst.
  match goal with
  | Hh : svg_header _ = Normal ?h,
    Hs : pushed Db.stroke_entry _ = Normal ?ps,
    Ht : pushed Db.text_entry _ = Normal ?ls |- _ =>
      exists h, ps, ls; split; [exact Hh|]; split; [by rewrite <- !app_assoc|];
      split;
      [ exact (pushed_Forall2 _ _ _ _ Db_stroke_entry_spec _ Hs)
      | exact (pushed_Forall2 _ _ _ _ Db_text_entry_spec _ Ht) ]
  end.
Qed.

Lemma paths_are_paths (strokes : list value) paths :
  Forall2 (λ s el, stroke_path s = Normal el) strokes paths →
  Forall (λ el, is_path el = true ∧ is_text el = false) paths.
Proof.
  induction 1 as [|s el ss els Hs _ IH]; constructor; [|done].
  destruct (stroke_path_markup _ _ Hs) as (d & c & w & ->). done.
Qed.

Lemma labels_are_texts (texts : list value) labels :
  Forall2 (λ t el, text_label t = Normal el) texts labels →
  Forall (λ el, is_text el = true ∧ is_path el = false) labels.
Proof.
  induction 1 as [|t el ts els Ht _ IH]; constructor; [|done].
  destruct (text_label_markup _ _ Ht) as (x & y & c & f & e & ->). done.
Qed.

Lemma filter_all (P : string → bool) (l : list string) :
  Forall (λ el, P el = true) l → filter (λ el, P el = true) l = l.
Proof.
  induction 1 as [|el l Hel _ IH]; [done|].
  rewrite filter_cons_True by done. by rewrite IH.
Qed.

Lemma filter_none (P : string → bool) (l : list string) :
  Forall (λ el, P el = false) l → filter (λ el, P el = true) l = [].
Proof.
  induction 1 as [|el l Hel _ IH]; [done|].
  rewrite filter_cons_False by (rewrite Hel; done). done.
Qed.

(** In an overlay that was rendered, the path entries are as many as the
    strokes of 2 points or more, and the text entries as many as the
    labels with text. *)
Lemma Db_render_counts meta strokes texts svg :
  Db.render meta strokes texts = Normal svg →
  length (filter (λ el, is_path el = true) svg)
    = length (filter (λ s, two_points s = true) strokes) ∧
  length (filter (λ el, is_text el = true) svg)
    = length (filter (λ t, labelled t = true) texts).
Proof.
  intros Hr.
  destruct (Db_render_structure _ _ _ _ Hr)
    as (header & paths & labels & Hh & -> & Hp & Hl).
  destruct (svg_header_open _ _ Hh) as (w & h & ->).
  pose proof (paths_are_paths _ _ Hp) as Hpp.
  pose proof (labels_are_texts _ _ Hl) as Hll.
  rewrite !filter_app.
  rewrite (filter_all is_path paths), (filter_none is_path labels),
          (filter_none is_text paths), (filter_all is_text labels);
    try (eapply Forall_impl; [eassumption|]; simpl; tauto).
  rewrite !filter_cons_False by (simpl; done).
  rewrite !filter_nil, !app_nil_r. simpl.
  split; symmetry; eapply Forall2_length; eassumption.
Qed.

End DbOverlay.

(** ** The annotate handler *)

(** Unfolds a handler down to the case analysis of its steps. *)
Ltac run_handler :=
  unfold mbind, io_bind, mret, io_ret, lift, select_image, insert_image,
    update_image in *; simpl in *.

Section Annotate.
Context `{JSRuntime} `{Sharp}.

(** Every step of a request answered with 201 succeeded, and the store
    grew by the one record under the next id. *)
Lemma annotate_201 f id_param req_body st r st' :
  annotate f id_param req_body st = (r, st') →
  status r = 201 →
  ∃ z src strokes texts meta svg bytes,
    StringToNumber id_param = Fin z ∧
    select_fails f = false ∧
    images st !! z = Some src ∧
    Db.request_strokes req_body = Normal strokes ∧
    Db.request_texts req_body = Normal texts ∧
    sharp_metadata (data src) = Normal meta ∧
    Db.render meta strokes texts = Normal svg ∧
    sharp_composite_png (data src) (join EmptyString svg) = Normal bytes ∧
    insert_fails f = false ∧
    r = {| status := 201;
           json := JObj [("id", JNum (Fin (next_id st)));
                         ("url", JStr (raw_url (Fin (next_id st))));
                         ("originalImageId", JNum (Fin z))] |} ∧
    st' = {| images := <[next_id st := annotated_image z src bytes]> (images st);
             next_id := next_id st + 1 |}.
Proof.
  unfold annotate, annotate_try. intros Hrun Hstatus.
  destruct (StringToNumber id_param) as [| | |z] eqn:Hid; simpl in Hrun;
    try (injection Hrun as <- <-; discriminate Hstatus).
  run_handler.
  destruct (Db.request_strokes req_body) as [strokes|] eqn:Hstrokes;
    [|injection Hrun as <- <-; discriminate Hstatus].
  destruct (Db.request_texts req_body) as [texts|] eqn:Htexts;
    [|injection Hrun as <- <-; discriminate Hstatus].
  destruct (select_fails f) eqn:Hsel;
    [injection Hrun as <- <-; discriminate Hstatus|].
  destruct (images st !! z) as [src|] eqn:Hsrc;
    [|injection Hrun as <- <-; discriminate Hstatus].
  destruct (sharp_metadata (data src)) as [meta|] eqn:Hmeta;
    [|injection Hrun as <- <-; discriminate Hstatus].
  destruct (Db.render meta strokes texts) as [svg|] eqn:Hsvg;
    [|injection Hrun as <- <-; discriminate Hstatus].
  destruct (sharp_composite_png (data src) (join EmptyString svg)) as [bytes|] eqn:Hbytes;
    [|injection Hrun as <- <-; discriminate Hstatus].
  destruct (insert_fails f) eqn:Hins;
    [injection Hrun as <- <-; discriminate Hstatus|].
  injection Hrun as <- <-.
  exists z, src, strokes, texts, meta, svg, bytes. by repeat split.
Qed.

(** A request answered otherwise left the store as it was, and the answer
    is one message with status 400, 404 or 500. *)
Lemma annotate_error f id_param req_body st r st' :
  annotate f id_param req_body st = (r, st') →
  status r ≠ 201 →
  st' = st ∧
  (r = message 400 "Invalid image id" ∨ r = message 404 "Image not found"
   ∨ r = message 500 "Failed to annotate image").
Proof.
  unfold annotate, annotate_try. intros Hrun Hstatus.
  destruct (StringToNumber id_param) as [| | |z] eqn:Hid; simpl in Hrun;
    try (injection Hrun as <- <-; by auto).
  run_handler.
  repeat match type of Hrun with
  | context [match ?c with _ => _ end] =>
      lazymatch c with
      | context [match _ with _ => _ end] => fail
      | _ => destruct c eqn:?
      end
  end; simpl in Hrun; injection Hrun as <- <-; try done; auto.
Qed.

End Annotate.

(** ** The overlay: entries and their order *)

Lemma canvas_prints (o : option number) (fallback : number) :
  ∃ s, to_string (js_or (of_optional o) (JNum fallback)) = Normal s.
Proof.
  unfold js_or. destruct (truthy (of_optional o)); [|simpl; eauto].
  destruct o; simpl; eauto.
Qed.

Lemma svg_header_total meta : ∃ header, svg_header meta = Normal header.
Proof.
  unfold svg_header, canvas_width, canvas_height.
  destruct (canvas_prints (meta_width meta) (Fin 1024)) as [w ->].
  destruct (canvas_prints (meta_height meta) (Fin 768)) as [h ->].
  simpl. eauto.
Qed.

(** The file-backed handler throws on every [strokes] that is neither absent
    nor an array nor a string. *)
Lemma Fs_overlay_not_iterable `{JSRuntime} meta props strokes :
  own "strokes" props = Some strokes →
  Fs.iterate (Fs.default_empty strokes) = Throw →
  Fs.overlay meta (JObj props) = Throw.
Proof.
  intros Hown Hit. unfold Fs.overlay, Fs.request_strokes, Fs.request_texts. simpl.
  rewrite Hown. simpl.
  destruct (svg_header_total meta) as [header ->]. simpl.
  by rewrite Hit.
Qed.

(** In the handler on the pool a [strokes] that is not an array stands for
    no stroke. *)
Lemma Db_request_strokes_not_array req_body v :
  get (Db.request_body req_body) "strokes" = Normal v →
  (∀ items, v ≠ JArr items) →
  Db.request_strokes req_body = Normal [].
Proof.
  intros Hget Hv. unfold Db.request_strokes. rewrite Hget. simpl.
  destruct v; try done. by destruct (Hv items).
Qed.

(** C1.  The specification counts one path per stroke of 2 points or more
    and one text per label with text for every request, a [strokes] or
    [texts] that is not an array standing for an empty sequence.  The
    handler on the pool does so ([Db_render_counts],
    [Db_request_strokes_not_array]): on the request whose [strokes] is
    [null] it renders the overlay with no path.  The handler of
    [src/index.js], whose default applies to an absent [strokes] only,
    throws in its stroke loop on that request, which its [catch] answers
    with 500. *)
Theorem C1_null_strokes_pool_renders_files_throw `{JSRuntime} (meta : metadata) :
  Fs.overlay meta null_strokes_request = Throw ∧
  ∃ header, svg_header meta = Normal header ∧
            Db.overlay meta null_strokes_request = Normal [header; svg_close].
Proof.
  split.
  - by apply (Fs_overlay_not_iterable meta _ JNull).
  - destruct (svg_header_total meta) as [header Hh]. exists header. split; [done|].
    unfold Db.overlay, Db.render. simpl. rewrite Hh. reflexivity.
Qed.

(** C2.  Whenever the overlay of a request is rendered, the [svg] array is
    the opening entry, then the paths of the strokes of 2 points or more in
    the order of the request, then the texts of the labels with text in the
    order of the request, then the closing entry. *)
Theorem C2_z_order `{JSRuntime} (meta : metadata) (req_body : value) (svg : list string) :
  Db.overlay meta req_body = Normal svg →
  ∃ strokes texts header paths labels,
    Db.request_strokes req_body = Normal strokes ∧
    Db.request_texts req_body = Normal texts ∧
    svg = [header] ++ paths ++ labels ++ [svg_close] ∧
    Forall2 (λ s el, stroke_path s = Normal el)
            (filter (λ s, two_points s = true) strokes) paths ∧
    Forall (λ el, is_path el = true) paths ∧
    Forall2 (λ t el, text_label t = Normal el)
            (filter (λ t, labelled t = true) texts) labels ∧
    Forall (λ el, is_text el = true) labels.
Proof.
  unfold Db.overlay. intros Hov. inv_bind.
  match goal with Hr : Db.render _ ?ss ?ts = Normal _ |- _ =>
    destruct (Db_render_structure _ _ _ _ Hr)
      as (header & paths & labels & _ & -> & Hp & Hl);
    exists ss, ts, header, paths, labels end.
  repeat split; try done.
  - eapply Forall_impl; [exact (paths_are_paths _ _ Hp)|]. simpl. tauto.
  - eapply Forall_impl; [exact (labels_are_texts _ _ Hl)|]. simpl. tauto.
Qed.

Lemma C2_z_order_witness :
  ∃ strokes texts header paths labels,
    @Db.request_strokes z_order_request = Normal strokes ∧
    Db.request_texts z_order_request = Normal texts ∧
    [svg_open "1024" "768"; path_A; path_B; text_T; svg_close]
      = [header] ++ paths ++ labels ++ [svg_close] ∧
    Forall2 (λ s el, stroke_path s = Normal el)
            (filter (λ s, two_points s = true) strokes) paths ∧
    Forall (λ el, is_path el = true) paths ∧
    Forall2 (λ t el, text_label t = Normal el)
            (filter (λ t, labelled t = true) texts) labels ∧
    Forall (λ el, is_text el = true) labels.
Proof.
  apply (@C2_z_order digits_runtime no_metadata z_order_request).
  vm_compute. reflexivity.
Defined.

(** With the strokes [A, B] and the text [T], A comes before B and B before
    T, between the opening and the closing entry. *)
Example z_order_A_B_T `{JSRuntime} :
  Db.overlay no_metadata z_order_request
  = Normal [svg_open "1024" "768"; path_A; path_B; text_T; svg_close].
Proof. reflexivity. Qed.

(** ** Annotate: linkage, failures, answers *)

Lemma sample_store_wf : store_wf sample_store.
Proof.
  intros k r Hk. unfold sample_store in Hk. simpl in Hk.
  apply lookup_singleton_Some in Hk as [<- _]. reflexivity.
Qed.

Lemma inherited_name_or_null (name : option string) :
  inherited_name name = name ∨ inherited_name name = None.
Proof. destruct name as [[|c s]|]; simpl; auto. Qed.

(** C3.  A successful annotate of an existing source answers with an id
    that is not the source's and was not in use; the record stored under it
    has the source as its parent, the content type [image/png] and the name
    of the source: the same name when the source has a name that is not
    empty, and null when the source has no name or an empty one; the source
    record and every other record are as before. *)
Theorem C3_parent_linkage `{JSRuntime} `{Sharp} (f : pool_faults)
    (id_param : string) (req_body : value) (st st' : store) (r : response) :
  store_wf st →
  annotate f id_param req_body st = (r, st') →
  status r = 201 →
  ∃ sourceId newId src new,
    StringToNumber id_param = Fin sourceId ∧
    images st !! sourceId = Some src ∧
    get (json r) "id" = Normal (JNum (Fin newId)) ∧
    newId ≠ sourceId ∧
    images st !! newId = None ∧
    images st' !! newId = Some new ∧
    original_image_id new = Some sourceId ∧
    original_name new = inherited_name (original_name src) ∧
    (∀ name, original_name src = Some name → name ≠ EmptyString →
             original_name new = Some name) ∧
    (original_name src = None ∨ original_name src = Some EmptyString →
     original_name new = None) ∧
    content_type new = "image/png" ∧
    images st' !! sourceId = Some src ∧
    ∀ k, k ≠ newId → images st' !! k = images st !! k.
Proof.
  intros Hwf Hrun Hstatus.
  destruct (annotate_201 _ _ _ _ _ _ Hrun Hstatus)
    as (z & src & strokes & texts & meta & svg & bytes
        & Hid & _ & Hsrc & _ & _ & _ & _ & _ & _ & -> & ->).
  pose proof (Hwf _ _ Hsrc) as Hlt.
  assert (Hfresh : images st !! next_id st = None).
  { destruct (images st !! next_id st) eqn:Hn; [|done].
    apply Hwf in Hn. lia. }
  exists z, (next_id st), src, (annotated_image z src bytes). simpl.
  split_and!; try done.
  - lia.
  - apply lookup_insert_eq.
  - intros name -> Hname. by destruct name.
  - by intros [-> | ->].
  - rewrite lookup_insert_ne by lia. done.
  - intros k Hk. by rewrite lookup_insert_ne.
Qed.

Lemma C3_parent_linkage_witness :
  ∃ sourceId newId src new,
    @StringToNumber digits_runtime "1" = Fin sourceId ∧
    images sample_store !! sourceId = Some src ∧
    get (json (@annotate digits_runtime sample_sharp no_faults "1"
                 sample_request sample_store).1) "id" = Normal (JNum (Fin newId)) ∧
    newId ≠ sourceId ∧
    images sample_store !! newId = None ∧
    images (@annotate digits_runtime sample_sharp no_faults "1"
              sample_request sample_store).2 !! newId = Some new ∧
    original_image_id new = Some sourceId ∧
    original_name new = inherited_name (original_name src) ∧
    (∀ name, original_name src = Some name → name ≠ EmptyString →
             original_name new = Some name) ∧
    (original_name src = None ∨ original_name src = Some EmptyString →
     original_name new = None) ∧
    content_type new = "image/png" ∧
    images (@annotate digits_runtime sample_sharp no_faults "1"
              sample_request sample_store).2 !! sourceId = Some src ∧
    ∀ k, k ≠ newId →
      images (@annotate digits_runtime sample_sharp no_faults "1"
                sample_request sample_store).2 !! k = images sample_store !! k.
Proof.
  apply (@C3_parent_linkage digits_runtime sample_sharp no_faults "1"
           sample_request sample_store).
  - exact sample_store_wf.
  - apply surjective_pairing.
  - vm_compute. reflexivity.
Defined.

(** The record derived from the sample, whose name is [scan.png], and the
    one derived from a record with no name. *)
Example annotated_name_is_the_name_of_the_source :
  original_name <$> images (@annotate digits_runtime sample_sharp no_faults "1"
                              sample_request sample_store).2 !! 2
  = Some (Some "scan.png") ∧
  original_name <$> images (@annotate digits_runtime sample_sharp no_faults "2"
                              sample_request linked_store).2 !! 3
  = Some None.
Proof. split; reflexivity. Qed.

(** C4.  Every annotate call either answers 201 after every step succeeded
    (the id is finite, the select returned the source, the metadata was
    read, the overlay was rendered, the composite was encoded and the insert
    went through), or answers with one error message, 400, 404 or 500, and
    leaves the store exactly as it was. *)
Theorem C4_failure_leaves_store `{JSRuntime} `{Sharp} (f : pool_faults)
    (id_param : string) (req_body : value) (st st' : store) (r : response) :
  annotate f id_param req_body st = (r, st') →
  (status r = 201 ∧
   ∃ z src strokes texts meta svg bytes,
     StringToNumber id_param = Fin z ∧
     select_fails f = false ∧
     images st !! z = Some src ∧
     Db.request_strokes req_body = Normal strokes ∧
     Db.request_texts req_body = Normal texts ∧
     sharp_metadata (data src) = Normal meta ∧
     Db.render meta strokes texts = Normal svg ∧
     sharp_composite_png (data src) (join EmptyString svg) = Normal bytes ∧
     insert_fails f = false)
  ∨
  (st' = st ∧
   (r = message 400 "Invalid image id" ∨ r = message 404 "Image not found"
    ∨ r = message 500 "Failed to annotate image")).
Proof.
  intros Hrun. destruct (decide (status r = 201)) as [Hok|Hko].
  - left. split; [done|].
    destruct (annotate_201 _ _ _ _ _ _ Hrun Hok)
      as (z & src & strokes & texts & meta & svg & bytes & Hall).
    exists z, src, strokes, texts, meta, svg, bytes. tauto.
  - right. exact (annotate_error _ _ _ _ _ _ Hrun Hko).
Qed.

Lemma C4_failure_leaves_store_witness :
  (status (@annotate digits_runtime sample_sharp no_faults "1"
             null_points_request sample_store).1 = 201 ∧
   ∃ z src strokes texts meta svg bytes,
     @StringToNumber digits_runtime "1" = Fin z ∧
     select_fails no_faults = false ∧
     images sample_store !! z = Some src ∧
     Db.request_strokes null_points_request = Normal strokes ∧
     Db.request_texts null_points_request = Normal texts ∧
     @sharp_metadata sample_sharp (data src) = Normal meta ∧
     @Db.render digits_runtime meta strokes texts = Normal svg ∧
     @sharp_composite_png sample_sharp (data src) (join EmptyString svg) = Normal bytes ∧
     insert_fails no_faults = false)
  ∨
  ((@annotate digits_runtime sample_sharp no_faults "1"
      null_points_request sample_store).2 = sample_store ∧
   ((@annotate digits_runtime sample_sharp no_faults "1"
       null_points_request sample_store).1 = message 400 "Invalid image id"
    ∨ (@annotate digits_runtime sample_sharp no_faults "1"
         null_points_request sample_store).1 = message 404 "Image not found"
    ∨ (@annotate digits_runtime sample_sharp no_faults "1"
         null_points_request sample_store).1 = message 500 "Failed to annotate image")).
Proof.
  apply (@C4_failure_leaves_store digits_runtime sample_sharp no_faults "1"
           null_points_request sample_store).
  apply surjective_pairing.
Defined.

(** The failures of the steps, one by one, on the sample store. *)
Example annotate_render_throws :
  @annotate digits_runtime sample_sharp no_faults "1" null_points_request sample_store
  = (message 500 "Failed to annotate image", sample_store).
Proof. reflexivity. Qed.

Example annotate_codec_throws :
  @annotate digits_runtime broken_sharp no_faults "1" sample_request sample_store
  = (message 500 "Failed to annotate image", sample_store).
Proof. reflexivity. Qed.

Example annotate_select_throws :
  @annotate digits_runtime sample_sharp
    {| select_fails := true; insert_fails := false; update_fails := false |}
    "1" sample_request sample_store
  = (message 500 "Failed to annotate image", sample_store).
Proof. reflexivity. Qed.

Example annotate_insert_throws :
  @annotate digits_runtime sample_sharp
    {| select_fails := false; insert_fails := true; update_fails := false |}
    "1" sample_request sample_store
  = (message 500 "Failed to annotate image", sample_store).
Proof. reflexivity. Qed.

Section AnnotateAnswers.
Context `{JSRuntime} `{Sharp}.

Lemma annotate_invalid_id f id_param req_body st :
  isFinite (StringToNumber id_param) = false →
  annotate f id_param req_body st = (message 400 "Invalid image id", st).
Proof. unfold annotate, annotate_try. by intros ->. Qed.

Lemma annotate_not_found f id_param req_body st z :
  StringToNumber id_param = Fin z →
  select_fails f = false →
  images st !! z = None →
  annotate f id_param req_body st = (message 404 "Image not found", st).
Proof.
  unfold annotate, annotate_try. intros -> Hsel Hnone. simpl.
  destruct (Db_request_strokes_total req_body) as [strokes Hs].
  destruct (Db_request_texts_total req_body) as [texts Ht].
  run_handler. rewrite Hs, Ht, Hsel, Hnone. reflexivity.
Qed.

End AnnotateAnswers.

(** C9.  An id that does not convert to a finite number is answered with
    the status 400 and the message "Invalid image id", whatever the store
    holds and whether or not its statements would fail (the store is not
    consulted); a finite id with no record is answered with the status 404
    and the message "Image not found"; and an answer 201 carries the new
    id, the url of its raw bytes and the id of the source. *)
Theorem C9_annotate_answers `{JSRuntime} `{Sharp} (f : pool_faults)
    (id_param : string) (req_body : value) (st : store) :
  (isFinite (StringToNumber id_param) = false →
   annotate f id_param req_body st
   = ({| status := 400; json := JObj [("message", JStr "Invalid image id")] |}, st)) ∧
  (∀ z, StringToNumber id_param = Fin z →
        select_fails f = false →
        images st !! z = None →
        annotate f id_param req_body st
        = ({| status := 404; json := JObj [("message", JStr "Image not found")] |}, st)) ∧
  (∀ r st', annotate f id_param req_body st = (r, st') →
            status r = 201 →
            ∃ z newId,
              StringToNumber id_param = Fin z ∧
              is_Some (images st !! z) ∧
              is_Some (images st' !! newId) ∧
              json r = JObj [("id", JNum (Fin newId));
                             ("url", JStr ("/api/images/" +:+ pretty newId +:+ "/raw"));
                             ("originalImageId", JNum (Fin z))]).
Proof.
  split; [apply annotate_invalid_id|].
  split; [apply annotate_not_found|].
  intros r st' Hrun Hstatus.
  destruct (annotate_201 _ _ _ _ _ _ Hrun Hstatus)
    as (z & src & strokes & texts & meta & svg & bytes
        & Hid & _ & Hsrc & _ & _ & _ & _ & _ & _ & -> & ->).
  exists z, (next_id st). simpl. repeat split; try done.
  rewrite lookup_insert_eq. done.
Qed.

(** The three answers on the sample store. *)
Example annotate_malformed_id :
  @annotate digits_runtime sample_sharp
    {| select_fails := true; insert_fails := true; update_fails := true |}
    "abc" sample_request sample_store
  = ({| status := 400; json := JObj [("message", JStr "Invalid image id")] |}, sample_store).
Proof. reflexivity. Qed.

Example annotate_missing_source :
  @annotate digits_runtime sample_sharp no_faults "9999" sample_request sample_store
  = ({| status := 404; json := JObj [("message", JStr "Image not found")] |}, sample_store).
Proof. reflexivity. Qed.

Example annotate_created :
  (@annotate digits_runtime sample_sharp no_faults "1" sample_request sample_store).1
  = {| status := 201;
       json := JObj [("id", JNum (Fin 2));
                     ("url", JStr "/api/images/2/raw");
                     ("originalImageId", JNum (Fin 1))] |}.
Proof. reflexivity. Qed.

(** ** Replace *)

Section Replace.
Context `{JSRuntime} `{Sharp}.

(** A replace answered with 200 found the record and overwrote its bytes,
    content type and name. *)
Lemma replace_200 f id_param file st r st' :
  replace f id_param file st = (r, st') →
  status r = 200 →
  ∃ z upload old png,
    StringToNumber id_param = Fin z ∧
    file = Some upload ∧
    select_fails f = false ∧
    images st !! z = Some old ∧
    sharp_png (buffer upload) = Normal png ∧
    update_fails f = false ∧
    r = {| status := 200;
           json := JObj [("id", JNum (Fin z));
                         ("url", JStr (raw_url (Fin z)));
                         ("updated", JBool true)] |} ∧
    st' = {| images := <[z := replaced_image old upload png]> (images st);
             next_id := next_id st |}.
Proof.
  unfold replace, replace_try. intros Hrun Hstatus.
  destruct (StringToNumber id_param) as [| | |z] eqn:Hid; simpl in Hrun;
    try (injection Hrun as <- <-; discriminate Hstatus).
  destruct file as [upload|];
    [|injection Hrun as <- <-; discriminate Hstatus].
  run_handler.
  destruct (select_fails f) eqn:Hsel;
    [injection Hrun as <- <-; discriminate Hstatus|].
  destruct (images st !! z) as [old|] eqn:Hold;
    [|injection Hrun as <- <-; discriminate Hstatus].
  destruct (sharp_png (buffer upload)) as [png|] eqn:Hpng;
    [|injection Hrun as <- <-; discriminate Hstatus].
  destruct (update_fails f) eqn:Hupd;
    [injection Hrun as <- <-; discriminate Hstatus|].
  injection Hrun as <- <-.
  exists z, upload, old, png. repeat split; try done.
  f_equal. apply map_eq. intros k.
  rewrite lookup_alter, lookup_insert. case_decide; [subst k|done].
  by rewrite Hold.
Qed.

(** A replace answered otherwise left the store as it was. *)
Lemma replace_error f id_param file st r st' :
  replace f id_param file st = (r, st') →
  status r ≠ 200 →
  st' = st.
Proof.
  unfold replace, replace_try. intros Hrun Hstatus.
  destruct (StringToNumber id_param) as [| | |z] eqn:Hid; simpl in Hrun;
    try (injection Hrun as <- <-; by auto).
  destruct file as [upload|]; [|injection Hrun as <- <-; by auto].
  run_handler.
  repeat match type of Hrun with
  | context [match ?c with _ => _ end] =>
      lazymatch c with
      | context [match _ with _ => _ end] => fail
      | _ => destruct c eqn:?
      end
  end; simpl in Hrun; injection Hrun as <- <-; try done; auto.
Qed.

(** Whatever its answer, a replace keeps the ids in use, the counter and
    the parent link of every record. *)
Lemma replace_preserves_links f id_param file st r st' :
  replace f id_param file st = (r, st') →
  next_id st' = next_id st ∧
  ∀ k, original_image_id <$> images st' !! k = original_image_id <$> images st !! k.
Proof.
  intros Hrun. destruct (decide (status r = 200)) as [Hok|Hko].
  - destruct (replace_200 _ _ _ _ _ _ Hrun Hok)
      as (z & upload & old & png & _ & _ & _ & Hold & _ & _ & _ & ->).
    simpl. split; [done|]. intros k.
    rewrite lookup_insert. case_decide; [subst k|done]. by rewrite Hold.
  - by rewrite (replace_error _ _ _ _ _ _ Hrun Hko).
Qed.

End Replace.

(** C5.  Two replaces of one id with the same bytes, both answered 200,
    leave the same stored bytes and answer with the same id; the record
    keeps its id and its parent link, the other records and the counter are
    untouched, and with the same file name the second replace changes
    nothing at all. *)
Theorem C5_replace_idempotent `{JSRuntime} `{Sharp} (f1 f2 : pool_faults)
    (id_param : string) (file1 file2 : upload_file)
    (st st1 st2 : store) (r1 r2 : response) :
  replace f1 id_param (Some file1) st = (r1, st1) →
  replace f2 id_param (Some file2) st1 = (r2, st2) →
  status r1 = 200 →
  status r2 = 200 →
  buffer file1 = buffer file2 →
  ∃ z old new1 new2,
    StringToNumber id_param = Fin z ∧
    images st !! z = Some old ∧
    images st1 !! z = Some new1 ∧
    images st2 !! z = Some new2 ∧
    data new1 = data new2 ∧
    get (json r1) "id" = Normal (JNum (Fin z)) ∧
    get (json r2) "id" = Normal (JNum (Fin z)) ∧
    original_image_id new1 = original_image_id old ∧
    original_image_id new2 = original_image_id old ∧
    (∀ k, k ≠ z → images st1 !! k = images st !! k ∧ images st2 !! k = images st !! k) ∧
    next_id st1 = next_id st ∧
    next_id st2 = next_id st ∧
    (originalname file1 = originalname file2 → st2 = st1).
Proof.
  intros Hrun1 Hrun2 Hok1 Hok2 Hbytes.
  destruct (replace_200 _ _ _ _ _ _ Hrun1 Hok1)
    as (z & u1 & old & png1 & Hid & [= <-] & _ & Hold & Hpng1 & _ & -> & ->).
  destruct (replace_200 _ _ _ _ _ _ Hrun2 Hok2)
    as (z' & u2 & old' & png2 & Hid' & [= <-] & _ & Hold' & Hpng2 & _ & -> & ->).
  rewrite Hid in Hid'. injection Hid' as <-.
  simpl in Hold'. rewrite lookup_insert_eq in Hold'. injection Hold' as <-.
  rewrite <- Hbytes, Hpng1 in Hpng2. injection Hpng2 as <-.
  exists z, old, (replaced_image old file1 png1),
    (replaced_image (replaced_image old file1 png1) file2 png1).
  simpl. repeat split; try done.
  - apply lookup_insert_eq.
  - apply lookup_insert_eq.
  - by rewrite lookup_insert_ne.
  - by rewrite !lookup_insert_ne.
  - intros Hname. f_equal. rewrite insert_insert_eq.
    unfold replaced_image. simpl. by rewrite Hname.
Qed.

Lemma C5_replace_idempotent_witness :
  ∃ z old new1 new2,
    @StringToNumber digits_runtime "2" = Fin z ∧
    images linked_store !! z = Some old ∧
    images (@replace digits_runtime sample_sharp no_faults "2"
              (Some edited_file) linked_store).2 !! z = Some new1 ∧
    images (@replace digits_runtime sample_sharp no_faults "2" (Some unnamed_file)
              (@replace digits_runtime sample_sharp no_faults "2"
                 (Some edited_file) linked_store).2).2 !! z = Some new2 ∧
    data new1 = data new2 ∧
    get (json (@replace digits_runtime sample_sharp no_faults "2"
                 (Some edited_file) linked_store).1) "id" = Normal (JNum (Fin z)) ∧
    get (json (@replace digits_runtime sample_sharp no_faults "2" (Some unnamed_file)
                 (@replace digits_runtime sample_sharp no_faults "2"
                    (Some edited_file) linked_store).2).1) "id" = Normal (JNum (Fin z)) ∧
    original_image_id new1 = original_image_id old ∧
    original_image_id new2 = original_image_id old ∧
    (∀ k, k ≠ z →
       images (@replace digits_runtime sample_sharp no_faults "2"
                 (Some edited_file) linked_store).2 !! k = images linked_store !! k ∧
       images (@replace digits_runtime sample_sharp no_faults "2" (Some unnamed_file)
                 (@replace digits_runtime sample_sharp no_faults "2"
                    (Some edited_file) linked_store).2).2 !! k
       = images linked_store !! k) ∧
    next_id (@replace digits_runtime sample_sharp no_faults "2"
               (Some edited_file) linked_store).2 = next_id linked_store ∧
    next_id (@replace digits_runtime sample_sharp no_faults "2" (Some unnamed_file)
               (@replace digits_runtime sample_sharp no_faults "2"
                  (Some edited_file) linked_store).2).2 = next_id linked_store ∧
    (originalname edited_file = originalname unnamed_file →
     (@replace digits_runtime sample_sharp no_faults "2" (Some unnamed_file)
        (@replace digits_runtime sample_sharp no_faults "2"
           (Some edited_file) linked_store).2).2
     = (@replace digits_runtime sample_sharp no_faults "2"
          (Some edited_file) linked_store).2).
Proof.
  apply (@C5_replace_idempotent digits_runtime sample_sharp no_faults no_faults "2"
           edited_file unnamed_file linked_store).
  - apply surjective_pairing.
  - apply surjective_pairing.
  - vm_compute. reflexivity.
  - vm_compute. reflexivity.
  - reflexivity.
Defined.

(** The derived record after a replace: new bytes and name, same parent. *)
Example replace_keeps_parent :
  images (@replace digits_runtime sample_sharp no_faults "2"
            (Some unnamed_file) linked_store).2 !! 2
  = Some {| content_type := "image/png";
            original_name := Some "edited.png";
            data := [x01; x02; x03];
            original_image_id := Some 1 |}.
Proof. reflexivity. Qed.

(** ** Strings *)

Lemma append_cons (x : ascii) (a b : string) : String x a +:+ b = String x (a +:+ b).
Proof. reflexivity. Qed.

Lemma append_assoc (a b c : string) : (a +:+ b) +:+ c = a +:+ (b +:+ c).
Proof.
  induction a as [|x a IH]; [done|].
  by rewrite !append_cons, IH.
Qed.

Lemma replace_all_append (c : ascii) (rep a b : string) :
  replace_all c rep (a +:+ b) = replace_all c rep a +:+ replace_all c rep b.
Proof.
  induction a as [|x a IH]; [done|].
  rewrite append_cons. cbn [replace_all].
  destruct (Ascii.eqb x c); rewrite IH.
  - by rewrite append_assoc.
  - by rewrite append_cons.
Qed.

(** The two passes of [replace] are the escaping of each character. *)
Lemma escape_escape_each (s : string) : escape s = escape_each s.
Proof.
  unfold escape. induction s as [|a s IH]; [done|].
  cbn [replace_all escape_each]. unfold escape_char.
  destruct (Ascii.eqb_spec a "&") as [->|Hamp].
  - rewrite replace_all_append, IH. reflexivity.
  - cbn [replace_all]. destruct (Ascii.eqb_spec a "<") as [->|Hlt].
    + by rewrite IH.
    + by rewrite IH.
Qed.

(** ** The bodies of the loops, step by step *)

Lemma stroke_path_inv stroke el :
  stroke_path stroke = Normal el ↔
  ∃ c w points d sc sw,
    get stroke "color" = Normal c ∧
    get stroke "width" = Normal w ∧
    get stroke "points" = Normal points ∧
    path_d points = Normal d ∧
    to_string (js_or c (JStr "#ff0000")) = Normal sc ∧
    to_string (js_or w (JNum (Fin 4))) = Normal sw ∧
    el = path_markup d sc sw.
Proof.
  unfold stroke_path. split.
  - intros Hs. inv_bind. subst. repeat eexists; eassumption.
  - intros (c & w & points & d & sc & sw & -> & -> & -> & Hd & Hc & Hw & ->).
    simpl. rewrite Hd. simpl. rewrite Hc. simpl. rewrite Hw. reflexivity.
Qed.

Lemma text_label_inv t el :
  text_label t = Normal el ↔
  ∃ xv yv c f text s sx sy sc sf,
    get t "x" = Normal xv ∧
    get t "y" = Normal yv ∧
    get t "color" = Normal c ∧
    get t "fontSize" = Normal f ∧
    get t "text" = Normal text ∧
    to_string text = Normal s ∧
    to_string (js_nullish xv (JNum (Fin 20))) = Normal sx ∧
    to_string (js_nullish yv (JNum (Fin 20))) = Normal sy ∧
    to_string (js_or c (JStr "#00ff00")) = Normal sc ∧
    to_string (js_or f (JNum (Fin 24))) = Normal sf ∧
    el = text_markup sx sy sc sf (escape s).
Proof.
  unfold text_label. split.
  - intros Hs. inv_bind. subst. repeat eexists; eassumption.
  - intros (xv & yv & c & f & text & s & sx & sy & sc & sf
            & -> & -> & -> & -> & -> & Hs & Hx & Hy & Hc & Hf & ->).
    simpl. rewrite Hs. simpl. rewrite Hx. simpl. rewrite Hy. simpl.
    rewrite Hc. simpl. rewrite Hf. reflexivity.
Qed.

(** C6.  The content of every text entry, between the opening tag of the
    [text] element and its closing tag, is the text of its label converted
    to a string, with each [&] replaced by [&amp;], each [<] by [&lt;] and
    every other character as it is. *)
Theorem C6_text_escaping (t : value) (el : string) :
  text_label t = Normal el →
  ∃ text s x y color fontSize,
    get t "text" = Normal text ∧
    to_string text = Normal s ∧
    escape s = escape_each s ∧
    el = "<text x=" +:+ dq +:+ x +:+ dq +:+
         " y=" +:+ dq +:+ y +:+ dq +:+
         " fill=" +:+ dq +:+ color +:+ dq +:+
         " font-size=" +:+ dq +:+ fontSize +:+ dq +:+
         " font-family=" +:+ dq +:+ "Arial, sans-serif" +:+ dq +:+ ">" +:+
         escape_each s +:+ "</text>".
Proof.
  intros Ht. apply text_label_inv in Ht
    as (xv & yv & c & f & text & s & sx & sy & sc & sf
        & _ & _ & _ & _ & Htext & Hs & _ & _ & _ & _ & ->).
  exists text, s, sx, sy, sc, sf.
  rewrite escape_escape_each. done.
Qed.

Lemma C6_text_escaping_witness :
  ∃ text s x y color fontSize,
    get label_T "text" = Normal text ∧
    to_string text = Normal s ∧
    escape s = escape_each s ∧
    "<text x=" +:+ dq +:+ "0" +:+ dq +:+
    " y=" +:+ dq +:+ "30" +:+ dq +:+
    " fill=" +:+ dq +:+ "#00ff00" +:+ dq +:+
    " font-size=" +:+ dq +:+ "24" +:+ dq +:+
    " font-family=" +:+ dq +:+ "Arial, sans-serif" +:+ dq +:+ ">" +:+
    "A&amp;B&lt;C" +:+ "</text>"
    = "<text x=" +:+ dq +:+ x +:+ dq +:+
      " y=" +:+ dq +:+ y +:+ dq +:+
      " fill=" +:+ dq +:+ color +:+ dq +:+
      " font-size=" +:+ dq +:+ fontSize +:+ dq +:+
      " font-family=" +:+ dq +:+ "Arial, sans-serif" +:+ dq +:+ ">" +:+
      escape_each s +:+ "</text>".
Proof.
  apply (C6_text_escaping label_T
           ("<text x=" +:+ dq +:+ "0" +:+ dq +:+
            " y=" +:+ dq +:+ "30" +:+ dq +:+
            " fill=" +:+ dq +:+ "#00ff00" +:+ dq +:+
            " font-size=" +:+ dq +:+ "24" +:+ dq +:+
            " font-family=" +:+ dq +:+ "Arial, sans-serif" +:+ dq +:+ ">" +:+
            "A&amp;B&lt;C" +:+ "</text>")).
  reflexivity.
Defined.

(** The label [A&B<C] of the specification. *)
Example escape_A_amp_B_lt_C :
  escape "A&B<C" = "A&amp;B&lt;C" ∧ escape_each "A&B<C" = "A&amp;B&lt;C" ∧
  text_label label_T
  = Normal ("<text x=" +:+ dq +:+ "0" +:+ dq +:+
            " y=" +:+ dq +:+ "30" +:+ dq +:+
            " fill=" +:+ dq +:+ "#00ff00" +:+ dq +:+
            " font-size=" +:+ dq +:+ "24" +:+ dq +:+
            " font-family=" +:+ dq +:+ "Arial, sans-serif" +:+ dq +:+ ">" +:+
            "A&amp;B&lt;C" +:+ "</text>").
Proof. repeat split. Qed.

(** ** The canvas *)





(** The opening entry for an image of 640 by 480, for metadata without
    dimensions, and for metadata with a width only. *)
Example canvas_of_the_decoded_size_and_of_the_fallbacks :
  svg_header {| meta_width := Some (Fin 640); meta_height := Some (Fin 480) |}
  = Normal ("<svg width=" +:+ dq +:+ "640" +:+ dq +:+
            " height=" +:+ dq +:+ "480" +:+ dq +:+
            " viewBox=" +:+ dq +:+ "0 0 " +:+ "640" +:+ " " +:+ "480" +:+ dq +:+
            " xmlns=" +:+ dq +:+ "http://www.w3.org/2000/svg" +:+ dq +:+ ">") ∧
  svg_header no_metadata
  = Normal ("<svg width=" +:+ dq +:+ "1024" +:+ dq +:+
            " height=" +:+ dq +:+ "768" +:+ dq +:+
            " viewBox=" +:+ dq +:+ "0 0 " +:+ "1024" +:+ " " +:+ "768" +:+ dq +:+
            " xmlns=" +:+ dq +:+ "http://www.w3.org/2000/svg" +:+ dq +:+ ">") ∧
  svg_header {| meta_width := Some (Fin 500); meta_height := None |}
  = Normal ("<svg width=" +:+ dq +:+ "500" +:+ dq +:+
            " height=" +:+ dq +:+ "768" +:+ dq +:+
            " viewBox=" +:+ dq +:+ "0 0 " +:+ "500" +:+ " " +:+ "768" +:+ dq +:+
            " xmlns=" +:+ dq +:+ "http://www.w3.org/2000/svg" +:+ dq +:+ ">").
Proof. repeat split. Qed.

(** Annotating an image whose metadata has no dimensions succeeds. *)
Example annotate_without_dimensions :
  status (@annotate digits_runtime blind_sharp no_faults "1"
            sample_request sample_store).1 = 201.
Proof. reflexivity. Qed.

(** ** The path of a stroke *)

Lemma map_points_later (i : nat) (points : list value) (parts : list string) :
  map_points (S i) points = Normal parts →
  ∃ ts, Forall2 (λ p t, point_text p = Normal t) points ts ∧
        parts = (λ t, "L " +:+ t) <$> ts.
Proof.
  revert i parts. induction points as [|p points IH]; simpl; intros i parts Hm.
  - injection Hm as <-. exists []. split; [constructor|done].
  - unfold point_command in Hm. inv_bind. subst.
    match goal with Hr : map_points _ _ = Normal _ |- _ =>
      destruct (IH _ _ Hr) as (ts & Hts & ->) end.
    match goal with Hp : point_text p = Normal ?t |- _ => exists (t :: ts) end.
    split; [by constructor|done].
Qed.

Lemma map_points_first (p0 : value) (later : list value) (parts : list string) :
  map_points 0 (p0 :: later) = Normal parts →
  ∃ t0 ts, point_text p0 = Normal t0 ∧
           Forall2 (λ p t, point_text p = Normal t) later ts ∧
           parts = t0 :: ((λ t, "L " +:+ t) <$> ts).
Proof.
  simpl. unfold point_command. intros Hm. inv_bind. subst.
  match goal with Hr : map_points _ _ = Normal _ |- _ =>
    destruct (map_points_later _ _ _ Hr) as (ts & Hts & ->) end.
  eauto.
Qed.

Lemma map_points_Forall2 (i : nat) (points : list value) (ts : list string) :
  Forall2 (λ p t, point_text p = Normal t) points ts →
  map_points (S i) points = Normal ((λ t, "L " +:+ t) <$> ts).
Proof.
  intros Hts. revert i. induction Hts as [|p t points ts Hp _ IH]; intros i; [done|].
  simpl. unfold point_command. rewrite Hp. simpl. by rewrite IH.
Qed.

Lemma append_nil_r (a : string) : a +:+ EmptyString = a.
Proof. induction a as [|c a IH]; [done|]. by rewrite append_cons, IH. Qed.

Lemma join_lines (t0 : string) (ts : list string) :
  join " " (t0 :: ((λ t, "L " +:+ t) <$> ts)) = t0 +:+ line_commands ts.
Proof.
  revert t0. induction ts as [|t ts IH]; intros t0.
  - simpl. by rewrite append_nil_r.
  - change (t0 +:+ " " +:+ join " " (("L " +:+ t) :: ((λ t, "L " +:+ t) <$> ts))
            = t0 +:+ " L " +:+ t +:+ line_commands ts).
    rewrite IH. reflexivity.
Qed.

Lemma path_d_move_then_lines (p0 : value) (later : list value) (t0 : string) (ts : list string) :
  point_text p0 = Normal t0 →
  Forall2 (λ p t, point_text p = Normal t) later ts →
  path_d (JArr (p0 :: later)) = Normal (move_then_lines t0 ts).
Proof.
  intros H0 Hts. simpl. unfold point_command. rewrite H0. simpl.
  rewrite (map_points_Forall2 _ _ _ Hts). simpl.
  unfold move_then_lines. f_equal. f_equal. apply join_lines.
Qed.

Section Paths.
Context `{JSRuntime}.

Lemma skip_two_points (lookup : value → string → completion value)
    (stroke : value) (items : list value) :
  lookup stroke "points" = Normal (JArr items) →
  (2 ≤ length items)%nat →
  (points ← lookup stroke "points";
   if negb (truthy points) then Normal true
   else len ← get points "length"; lt2 len) = Normal false.
Proof.
  intros -> Hlen. simpl. f_equal. apply Z.ltb_ge. lia.
Qed.

(** Every path pushed for a stroke is a move to its first point and lines
    to the later ones, of which there is at least one. *)
Lemma stroke_path_shape (stroke : value) (el : string) :
  stroke_path stroke = Normal el →
  two_points stroke = true →
  ∃ p0 p1 later t0 ts sc sw,
    get stroke "points" = Normal (JArr (p0 :: p1 :: later)) ∧
    point_text p0 = Normal t0 ∧
    Forall2 (λ p t, point_text p = Normal t) (p1 :: later) ts ∧
    el = path_markup (move_then_lines t0 ts) sc sw.
Proof.
  intros Hs Htwo. apply stroke_path_inv in Hs
    as (c & w & points & d & sc & sw & _ & _ & Hpoints & Hd & _ & _ & ->).
  rewrite (two_points_array _ _ (get_opt_get _ _ _ Hpoints)) in Htwo.
  destruct points as [| | | | |items|]; try done.
  apply bool_decide_eq_true in Htwo.
  destruct items as [|p0 [|p1 later]]; simpl in Htwo; try lia.
  unfold path_d in Hd. inv_bind.
  match goal with Hm : map_points _ _ = Normal _ |- _ =>
    destruct (map_points_first _ _ _ Hm) as (t0 & ts & Hfirst & Hts & ->) end.
  subst d. exists p0, p1, later, t0, ts, sc, sw.
  repeat split; try done.
  unfold move_then_lines. by rewrite join_lines.
Qed.

End Paths.

(** C8.  A stroke whose points are an array of 2 or more, each with
    coordinates that convert to strings, gives one path entry in both
    handlers: its data is a move to the first point followed by one line to
    each later point in order and nothing after it, with no fill and round
    caps and joins. *)
Theorem C8_path_geometry `{JSRuntime} (stroke p0 p1 : value) (later : list value)
    (t0 t1 : string) (ts : list string) (c w : value) (sc sw : string) :
  get stroke "points" = Normal (JArr (p0 :: p1 :: later)) →
  point_text p0 = Normal t0 →
  point_text p1 = Normal t1 →
  Forall2 (λ p t, point_text p = Normal t) later ts →
  get stroke "color" = Normal c →
  to_string (js_or c (JStr "#ff0000")) = Normal sc →
  get stroke "width" = Normal w →
  to_string (js_or w (JNum (Fin 4))) = Normal sw →
  Db.stroke_entry stroke
    = Normal (Some (path_markup (move_then_lines t0 (t1 :: ts)) sc sw)) ∧
  Fs.stroke_entry stroke
    = Normal (Some (path_markup (move_then_lines t0 (t1 :: ts)) sc sw)) ∧
  path_markup (move_then_lines t0 (t1 :: ts)) sc sw
    = "<path d=" +:+ dq +:+ "M " +:+ t0 +:+ " L " +:+ t1 +:+ line_commands ts +:+ dq +:+
      " fill=" +:+ dq +:+ "none" +:+ dq +:+
      " stroke=" +:+ dq +:+ sc +:+ dq +:+
      " stroke-width=" +:+ dq +:+ sw +:+ dq +:+
      " stroke-linecap=" +:+ dq +:+ "round" +:+ dq +:+
      " stroke-linejoin=" +:+ dq +:+ "round" +:+ dq +:+ " />".
Proof.
  intros Hpoints H0 H1 Hts Hc Hsc Hw Hsw.
  assert (Hpath : stroke_path stroke
                  = Normal (path_markup (move_then_lines t0 (t1 :: ts)) sc sw)).
  { apply stroke_path_inv.
    exists c, w, (JArr (p0 :: p1 :: later)), (move_then_lines t0 (t1 :: ts)), sc, sw.
    repeat split; try done.
    apply path_d_move_then_lines; [done|]. by constructor. }
  split; [|split].
  - unfold Db.stroke_entry, Db.skip_stroke.
    rewrite (skip_two_points get_opt stroke (p0 :: p1 :: later));
      [|by apply get_opt_get|simpl; lia].
    simpl. by rewrite Hpath.
  - unfold Fs.stroke_entry, Fs.skip_stroke.
    rewrite (skip_two_points get stroke (p0 :: p1 :: later)); [|done|simpl; lia].
    simpl. by rewrite Hpath.
  - unfold path_markup, move_then_lines. cbn [line_commands].
    by rewrite !append_assoc.
Qed.

Lemma C8_path_geometry_witness :
  @Db.stroke_entry digits_runtime stroke_B
    = Normal (Some (path_markup (move_then_lines "5 5" ["6 7"; "8 9"]) "#ff0000" "2")) ∧
  @Fs.stroke_entry digits_runtime stroke_B
    = Normal (Some (path_markup (move_then_lines "5 5" ["6 7"; "8 9"]) "#ff0000" "2")) ∧
  path_markup (move_then_lines "5 5" ["6 7"; "8 9"]) "#ff0000" "2"
    = "<path d=" +:+ dq +:+ "M " +:+ "5 5" +:+ " L " +:+ "6 7"
      +:+ line_commands ["8 9"] +:+ dq +:+
      " fill=" +:+ dq +:+ "none" +:+ dq +:+
      " stroke=" +:+ dq +:+ "#ff0000" +:+ dq +:+
      " stroke-width=" +:+ dq +:+ "2" +:+ dq +:+
      " stroke-linecap=" +:+ dq +:+ "round" +:+ dq +:+
      " stroke-linejoin=" +:+ dq +:+ "round" +:+ dq +:+ " />".
Proof.
  apply (@C8_path_geometry digits_runtime stroke_B (point 5 5) (point 6 7) [point 8 9]
           "5 5" "6 7" ["8 9"] JUndefined (JNum (Fin 2)) "#ff0000" "2");
    try reflexivity.
  repeat constructor.
Defined.

(** The path of the stroke B is the one the overlay of the example lists. *)
Example path_B_data : path_markup (move_then_lines "5 5" ["6 7"; "8 9"]) "#ff0000" "2" = path_B.
Proof. reflexivity. Qed.

(** ** Defaults *)

Lemma js_or_falsy (a b : value) : truthy a = false → js_or a b = b.
Proof. unfold js_or. by intros ->. Qed.

Lemma js_or_truthy (a b : value) : truthy a = true → js_or a b = a.
Proof. unfold js_or. by intros ->. Qed.

(** C10.  The width and the color of a stroke and the color and the font
    size of a label are replaced by their defaults whenever they are falsy
    (so a width 0 gives 4 and a font size 0 gives 24); a label whose text
    is falsy is skipped by both handlers; the coordinates of a label are
    replaced by 20 only when they are [undefined] or [null], and any other
    value, 0 included, is kept.  The falsy values are [undefined], [null],
    [false], 0, NaN and the empty string. *)
Theorem C10_falsy_and_nullish_defaults `{JSRuntime} (stroke t : value) :
  (∀ w el, get stroke "width" = Normal w → truthy w = false →
           stroke_path stroke = Normal el →
           ∃ d c, el = "<path d=" +:+ dq +:+ d +:+ dq +:+
                  " fill=" +:+ dq +:+ "none" +:+ dq +:+
                  " stroke=" +:+ dq +:+ c +:+ dq +:+
                  " stroke-width=" +:+ dq +:+ "4" +:+ dq +:+
                  " stroke-linecap=" +:+ dq +:+ "round" +:+ dq +:+
                  " stroke-linejoin=" +:+ dq +:+ "round" +:+ dq +:+ " />") ∧
  (∀ c el, get stroke "color" = Normal c → truthy c = false →
           stroke_path stroke = Normal el →
           ∃ d w, el = "<path d=" +:+ dq +:+ d +:+ dq +:+
                  " fill=" +:+ dq +:+ "none" +:+ dq +:+
                  " stroke=" +:+ dq +:+ "#ff0000" +:+ dq +:+
                  " stroke-width=" +:+ dq +:+ w +:+ dq +:+
                  " stroke-linecap=" +:+ dq +:+ "round" +:+ dq +:+
                  " stroke-linejoin=" +:+ dq +:+ "round" +:+ dq +:+ " />") ∧
  (∀ c el, get t "color" = Normal c → truthy c = false →
           text_label t = Normal el →
           ∃ x y f e, el = "<text x=" +:+ dq +:+ x +:+ dq +:+
                  " y=" +:+ dq +:+ y +:+ dq +:+
                  " fill=" +:+ dq +:+ "#00ff00" +:+ dq +:+
                  " font-size=" +:+ dq +:+ f +:+ dq +:+
                  " font-family=" +:+ dq +:+ "Arial, sans-serif" +:+ dq +:+ ">" +:+
                  e +:+ "</text>") ∧
  (∀ f el, get t "fontSize" = Normal f → truthy f = false →
           text_label t = Normal el →
           ∃ x y c e, el = "<text x=" +:+ dq +:+ x +:+ dq +:+
                  " y=" +:+ dq +:+ y +:+ dq +:+
                  " fill=" +:+ dq +:+ c +:+ dq +:+
                  " font-size=" +:+ dq +:+ "24" +:+ dq +:+
                  " font-family=" +:+ dq +:+ "Arial, sans-serif" +:+ dq +:+ ">" +:+
                  e +:+ "</text>") ∧
  (∀ text, get t "text" = Normal text → truthy text = false →
           Db.text_entry t = Normal None ∧ Fs.text_entry t = Normal None) ∧
  (∀ xv yv el, get t "x" = Normal xv → get t "y" = Normal yv →
           text_label t = Normal el →
           ∃ sx sy c f e,
             el = "<text x=" +:+ dq +:+ sx +:+ dq +:+
               " y=" +:+ dq +:+ sy +:+ dq +:+
               " fill=" +:+ dq +:+ c +:+ dq +:+
               " font-size=" +:+ dq +:+ f +:+ dq +:+
               " font-family=" +:+ dq +:+ "Arial, sans-serif" +:+ dq +:+ ">" +:+
               e +:+ "</text>" ∧
             to_string (match xv with JUndefined | JNull => JNum (Fin 20) | _ => xv end)
               = Normal sx ∧
             to_string (match yv with JUndefined | JNull => JNum (Fin 20) | _ => yv end)
               = Normal sy) ∧
  to_string (JNum (Fin 0)) = Normal "0" ∧
  to_string (JNum (Fin 20)) = Normal "20" ∧
  truthy (JNum (Fin 0)) = false ∧
  (∀ v, truthy v = false ↔
        v = JUndefined ∨ v = JNull ∨ v = JBool false ∨ v = JNum (Fin 0) ∨
        v = JNum NaN ∨ v = JStr EmptyString).
Proof.
  split_and!; try done.
  - intros w el Hw Hfalsy Hs. apply stroke_path_inv in Hs
      as (c & w' & points & d & sc & sw & _ & Hw' & _ & _ & _ & Hsw & ->).
    rewrite Hw in Hw'. injection Hw' as <-.
    rewrite (js_or_falsy _ _ Hfalsy) in Hsw. injection Hsw as <-.
    by exists d, sc.
  - intros c el Hc Hfalsy Hs. apply stroke_path_inv in Hs
      as (c' & w & points & d & sc & sw & Hc' & _ & _ & _ & Hsc & _ & ->).
    rewrite Hc in Hc'. injection Hc' as <-.
    rewrite (js_or_falsy _ _ Hfalsy) in Hsc. injection Hsc as <-.
    by exists d, sw.
  - intros c el Hc Hfalsy Ht. apply text_label_inv in Ht
      as (xv & yv & c' & f & text & s & sx & sy & sc & sf
          & _ & _ & Hc' & _ & _ & _ & _ & _ & Hsc & _ & ->).
    rewrite Hc in Hc'. injection Hc' as <-.
    rewrite (js_or_falsy _ _ Hfalsy) in Hsc. injection Hsc as <-.
    by exists sx, sy, sf, (escape s).
  - intros f el Hf Hfalsy Ht. apply text_label_inv in Ht
      as (xv & yv & c & f' & text & s & sx & sy & sc & sf
          & _ & _ & _ & Hf' & _ & _ & _ & _ & _ & Hsf & ->).
    rewrite Hf in Hf'. injection Hf' as <-.
    rewrite (js_or_falsy _ _ Hfalsy) in Hsf. injection Hsf as <-.
    by exists sx, sy, sc, (escape s).
  - intros text Htext Hfalsy. split.
    + unfold Db.text_entry, Db.skip_text.
      rewrite (get_opt_get _ _ _ Htext). simpl. by rewrite Hfalsy.
    + unfold Fs.text_entry, Fs.skip_text. rewrite Htext. simpl. by rewrite Hfalsy.
  - intros xv yv el Hx Hy Ht. apply text_label_inv in Ht
      as (xv' & yv' & c & f & text & s & sx & sy & sc & sf
          & Hx' & Hy' & _ & _ & _ & _ & Hsx & Hsy & _ & _ & ->).
    rewrite Hx in Hx'. injection Hx' as <-.
    rewrite Hy in Hy'. injection Hy' as <-.
    exists sx, sy, sc, sf, (escape s). repeat split.
    + by destruct xv.
    + by destruct yv.
  - intros v. split.
    + destruct v as [| |[]|[| | |[| |]]|[|]| |]; simpl; try done; auto 10.
    + intros [-> | [-> | [-> | [-> | [-> | ->]]]]]; reflexivity.
Qed.

(** The instances with 0 and with [null]. *)
Example zero_width_gives_4 `{JSRuntime} :
  Db.stroke_entry zero_width_stroke
  = Normal (Some ("<path d=" +:+ dq +:+ "M 0 0 L 1 1" +:+ dq +:+
     " fill=" +:+ dq +:+ "none" +:+ dq +:+
     " stroke=" +:+ dq +:+ "#ff0000" +:+ dq +:+
     " stroke-width=" +:+ dq +:+ "4" +:+ dq +:+
     " stroke-linecap=" +:+ dq +:+ "round" +:+ dq +:+
     " stroke-linejoin=" +:+ dq +:+ "round" +:+ dq +:+ " />")).
Proof. reflexivity. Qed.

Example zero_font_size_gives_24_and_zero_coordinates_stay :
  text_label zero_label
  = Normal ("<text x=" +:+ dq +:+ "0" +:+ dq +:+
     " y=" +:+ dq +:+ "0" +:+ dq +:+
     " fill=" +:+ dq +:+ "#00ff00" +:+ dq +:+
     " font-size=" +:+ dq +:+ "24" +:+ dq +:+
     " font-family=" +:+ dq +:+ "Arial, sans-serif" +:+ dq +:+ ">" +:+
     "hi" +:+ "</text>").
Proof. reflexivity. Qed.

Example null_and_absent_coordinates_give_20 :
  text_label null_xy_label
  = Normal ("<text x=" +:+ dq +:+ "20" +:+ dq +:+
     " y=" +:+ dq +:+ "20" +:+ dq +:+
     " fill=" +:+ dq +:+ "#00ff00" +:+ dq +:+
     " font-size=" +:+ dq +:+ "24" +:+ dq +:+
     " font-family=" +:+ dq +:+ "Arial, sans-serif" +:+ dq +:+ ">" +:+
     "hi" +:+ "</text>").
Proof. reflexivity. Qed.

Example zero_text_is_skipped :
  Db.text_entry zero_text_label = Normal None ∧
  Fs.text_entry zero_text_label = Normal None.
Proof. split; reflexivity. Qed.

(** ** Requests of the shape of the data model are always rendered *)

Lemma primitive_to_string (v : value) :
  primitive v = true → ∃ s, to_string v = Normal s.
Proof. destruct v as [| |[]| | | |]; simpl; try done; eauto. Qed.

Lemma primitive_js_or (a b : value) :
  primitive a = true → primitive b = true → primitive (js_or a b) = true.
Proof. unfold js_or. by destruct (truthy a). Qed.

Lemma primitive_js_nullish (a b : value) :
  primitive a = true → primitive b = true → primitive (js_nullish a b) = true.
Proof. by destruct a. Qed.

Lemma get_field (props : list (string * value)) (name : string) :
  get (JObj props) name = Normal (field (JObj props) name).
Proof. reflexivity. Qed.

Lemma shaped_point_text (p : value) :
  shaped_point p = true → ∃ t, point_text p = Normal t.
Proof.
  destruct p as [| | | | | |props]; try done. simpl.
  intros [Hx Hy]%andb_prop.
  destruct (primitive_to_string _ Hx) as [sx Hsx].
  destruct (primitive_to_string _ Hy) as [sy Hsy].
  unfold point_text. rewrite !get_field. simpl.
  rewrite Hsx. simpl. rewrite Hsy. simpl. eauto.
Qed.

Lemma shaped_points_map (items : list value) :
  forallb shaped_point items = true → ∀ i, ∃ parts, map_points i items = Normal parts.
Proof.
  induction items as [|p items IH]; simpl; intros Hall i; [eauto|].
  apply andb_prop in Hall as [Hp Hitems].
  destruct (shaped_point_text _ Hp) as [t Ht].
  destruct (IH Hitems (S i)) as [parts Hparts].
  unfold point_command. rewrite Ht. simpl. rewrite Hparts. simpl. eauto.
Qed.

Lemma pushed_total (body : value → completion (option string)) (entries : list value) :
  Forall (λ e, ∃ r, body e = Normal r) entries →
  ∃ els, pushed body entries = Normal els.
Proof.
  induction 1 as [|e entries [r Hr] _ [els IH]]; simpl; [eauto|].
  rewrite Hr, IH. simpl. eauto.
Qed.

Section Shaped.
Context `{JSRuntime}.

Lemma shaped_stroke_path (props : list (string * value)) (items : list value) :
  field (JObj props) "points" = JArr items →
  forallb shaped_point items = true →
  primitive (field (JObj props) "color") = true →
  primitive (field (JObj props) "width") = true →
  ∃ el, stroke_path (JObj props) = Normal el.
Proof.
  intros Hpoints Hitems Hc Hw.
  destruct (shaped_points_map _ Hitems 0%nat) as [parts Hparts].
  destruct (primitive_to_string _ (primitive_js_or _ (JStr "#ff0000") Hc eq_refl))
    as [sc Hsc].
  destruct (primitive_to_string _ (primitive_js_or _ (JNum (Fin 4)) Hw eq_refl))
    as [sw Hsw].
  eexists. apply stroke_path_inv.
  exists (field (JObj props) "color"), (field (JObj props) "width"), (JArr items),
    ("M " +:+ join " " parts), sc, sw.
  rewrite !get_field, Hpoints. repeat split; try done.
  unfold path_d. by rewrite Hparts.
Qed.

Lemma shaped_stroke_entry (stroke : value) :
  shaped_stroke stroke = true →
  ∃ r, Db.stroke_entry stroke = Normal r ∧ Fs.stroke_entry stroke = Normal r.
Proof.
  destruct stroke as [| | | | | |props]; try done.
  unfold shaped_stroke. intros [[Hpoints Hc]%andb_prop Hw]%andb_prop.
  unfold Db.stroke_entry, Db.skip_stroke, Fs.stroke_entry, Fs.skip_stroke.
  cbn [get_opt]. rewrite !get_field.
  destruct (field (JObj props) "points") as [| | | | |items|] eqn:Hp; try done;
    try (simpl; by eauto).
  pose proof (lt2_length items) as Hlen.
  change (mbind (M := completion) ?k (Normal ?a)) with (k a).
  cbn [truthy negb].
  change (get (JArr items) "length" ≫= λ len, lt2 len)
    with (get (JArr items) "length" ≫= lt2).
  rewrite Hlen.
  change (mbind (M := completion) ?k (Normal ?a)) with (k a).
  destruct (negb (bool_decide (2 ≤ length items)%nat)); [simpl; by eauto|].
  destruct (shaped_stroke_path props items Hp Hpoints Hc Hw) as [el ->].
  simpl. eauto.
Qed.

Lemma shaped_label_entry (t : value) :
  shaped_label t = true →
  ∃ r, Db.text_entry t = Normal r ∧ Fs.text_entry t = Normal r.
Proof.
  destruct t as [| | | | | |props]; try done.
  unfold shaped_label.
  intros [[[[Hx Hy]%andb_prop Hc]%andb_prop Hf]%andb_prop Ht]%andb_prop.
  destruct (primitive_to_string _ Ht) as [s Hs].
  destruct (primitive_to_string _ (primitive_js_nullish _ (JNum (Fin 20)) Hx eq_refl))
    as [sx Hsx].
  destruct (primitive_to_string _ (primitive_js_nullish _ (JNum (Fin 20)) Hy eq_refl))
    as [sy Hsy].
  destruct (primitive_to_string _ (primitive_js_or _ (JStr "#00ff00") Hc eq_refl))
    as [sc Hsc].
  destruct (primitive_to_string _ (primitive_js_or _ (JNum (Fin 24)) Hf eq_refl))
    as [sf Hsf].
  assert (Hlabel : text_label (JObj props)
                   = Normal (text_markup sx sy sc sf (escape s))).
  { apply text_label_inv.
    exists (field (JObj props) "x"), (field (JObj props) "y"),
      (field (JObj props) "color"), (field (JObj props) "fontSize"),
      (field (JObj props) "text"), s, sx, sy, sc, sf.
    rewrite !get_field. by repeat split. }
  unfold Db.text_entry, Db.skip_text, Fs.text_entry, Fs.skip_text.
  cbn [get_opt]. rewrite !get_field, Hlabel.
  set (text := field (JObj props) "text").
  destruct (truthy text) eqn:Htruthy; simpl; rewrite Htruthy; simpl; eauto.
Qed.

(** The pool handler renders the overlay of every request whose strokes and
    labels have the shape of the data model, whatever else the request
    holds and whether or not its [strokes] and [texts] are arrays. *)
Lemma Db_overlay_total (meta : metadata) (req_body : value) (strokes texts : list value) :
  Db.request_strokes req_body = Normal strokes →
  Db.request_texts req_body = Normal texts →
  forallb shaped_stroke strokes = true →
  forallb shaped_label texts = true →
  ∃ svg, Db.overlay meta req_body = Normal svg.
Proof.
  intros Hs Ht Hstrokes Hlabels. unfold Db.overlay, Db.render.
  rewrite Hs, Ht. simpl.
  destruct (svg_header_total meta) as [header ->]. simpl.
  rewrite push_each_pushed.
  destruct (pushed_total Db.stroke_entry strokes) as [paths ->].
  { apply Forall_forall. intros e He.
    rewrite forallb_forall in Hstrokes.
    destruct (shaped_stroke_entry e) as (r & Hr & _); [|by eauto].
    apply Hstrokes. by apply list_elem_of_In. }
  simpl. rewrite push_each_pushed.
  destruct (pushed_total Db.text_entry texts) as [labels ->].
  { apply Forall_forall. intros e He.
    rewrite forallb_forall in Hlabels.
    destruct (shaped_label_entry e) as (r & Hr & _); [|by eauto].
    apply Hlabels. by apply list_elem_of_In. }
  simpl. eauto.
Qed.

(** The counts of a rendered overlay, from the request. *)
Lemma Db_overlay_counts (meta : metadata) (req_body : value) (svg : list string) :
  Db.overlay meta req_body = Normal svg →
  ∃ strokes texts,
    Db.request_strokes req_body = Normal strokes ∧
    Db.request_texts req_body = Normal texts ∧
    length (filter (λ el, is_path el = true) svg)
      = length (filter (λ s, two_points s = true) strokes) ∧
    length (filter (λ el, is_text el = true) svg)
      = length (filter (λ t, labelled t = true) texts).
Proof.
  unfold Db.overlay. intros Hov. inv_bind.
  match goal with Hr : Db.render _ ?ss ?ts = Normal _ |- _ =>
    exists ss, ts; split; [done|]; split; [done|];
    exact (Db_render_counts _ _ _ _ Hr) end.
Qed.

End Shaped.

(** The sample request, with a short stroke and an empty label among the
    valid ones: 2 paths and 1 text. *)
Example sample_request_counts :
  ∃ svg, @Db.overlay digits_runtime no_metadata sample_request = Normal svg ∧
         length (filter (λ el, is_path el = true) svg) = 2%nat ∧
         length (filter (λ el, is_text el = true) svg) = 1%nat.
Proof. eexists. split; [reflexivity|]. split; reflexivity. Qed.

(** ** The invariant of the store *)

Section Invariant.
Context `{JSRuntime} `{Sharp}.

Lemma store_wf_empty : store_wf {| images := ∅; next_id := 1 |}.
Proof. intros k r Hk. simpl in Hk. by rewrite lookup_empty in Hk. Qed.

Lemma store_wf_insert (st : store) (r : image) :
  store_wf st →
  store_wf {| images := <[next_id st := r]> (images st); next_id := next_id st + 1 |}.
Proof.
  intros Hwf k r' Hk. simpl in *.
  apply lookup_insert_Some in Hk as [[<- _]|[_ Hk]]; [lia|].
  apply Hwf in Hk. lia.
Qed.

Lemma store_wf_annotate f id_param req_body st r st' :
  store_wf st → annotate f id_param req_body st = (r, st') → store_wf st'.
Proof.
  intros Hwf Hrun. destruct (decide (status r = 201)) as [Hok|Hko].
  - destruct (annotate_201 _ _ _ _ _ _ Hrun Hok)
      as (z & src & strokes & texts & meta & svg & bytes
          & _ & _ & _ & _ & _ & _ & _ & _ & _ & _ & ->).
    by apply store_wf_insert.
  - by destruct (annotate_error _ _ _ _ _ _ Hrun Hko) as [-> _].
Qed.

Lemma store_wf_replace f id_param file st r st' :
  store_wf st → replace f id_param file st = (r, st') → store_wf st'.
Proof.
  intros Hwf Hrun k r' Hk.
  destruct (replace_preserves_links _ _ _ _ _ _ Hrun) as [-> Hlinks].
  specialize (Hlinks k). rewrite Hk in Hlinks. simpl in Hlinks.
  destruct (images st !! k) as [old|] eqn:Hold; [|done].
  by apply (Hwf k old).
Qed.

Lemma store_wf_upload f file st r st' :
  store_wf st → upload f file st = (r, st') → store_wf st'.
Proof.
  unfold upload, upload_try. intros Hwf Hrun.
  destruct file as [file|]; [|by injection Hrun as _ <-].
  run_handler.
  destruct (sharp_png (buffer file)); [|by injection Hrun as _ <-].
  destruct (insert_fails f); injection Hrun as _ <-; [done|].
  by apply store_wf_insert.
Qed.

End Invariant.

(** ** The overlay of the file-backed application *)

Section FsOverlay.
Context `{JSRuntime}.

(** When it is rendered, the overlay of [src/index.js] lists the same
    entries in the same order, over the entries its loops visit. *)
Lemma Fs_overlay_structure meta req_body svg :
  Fs.overlay meta req_body = Normal svg →
  ∃ strokes texts stroke_list text_list header paths labels,
    Fs.request_strokes req_body = Normal strokes ∧
    Fs.request_texts req_body = Normal texts ∧
    Fs.iterate strokes = Normal stroke_list ∧
    Fs.iterate texts = Normal text_list ∧
    svg_header meta = Normal header ∧
    svg = [header] ++ paths ++ labels ++ [svg_close] ∧
    Forall2 (λ s el, stroke_path s = Normal el)
            (filter (λ s, two_points s = true) stroke_list) paths ∧
    Forall2 (λ t el, text_label t = Normal el)
            (filter (λ t, labelled t = true) text_list) labels.
Proof.
  unfold Fs.overlay. intros Hov. inv_bind.
  repeat match goal with Hp : push_each _ _ _ = Normal _ |- _ =>
    rewrite push_each_pushed in Hp end.
  inv_bind. subst.
  match goal with
  | Hs : pushed Fs.stroke_entry _ = Normal ?ps,
    Ht : pushed Fs.text_entry _ = Normal ?ls |- _ =>
      do 5 eexists; exists ps, ls;
      repeat (split; [eassumption|]);
      split; [by rewrite <- !app_assoc|];
      split;
      [ exact (pushed_Forall2 _ _ _ _ Fs_stroke_entry_spec _ Hs)
      | exact (pushed_Forall2 _ _ _ _ Fs_text_entry_spec _ Ht) ]
  end.
Qed.

End FsOverlay.

(** ** A path over numeric points is never closed *)

Lemma has_close_append (a b : string) :
  has_close (a +:+ b) = has_close a || has_close b.
Proof.
  induction a as [|c a IH]; [done|].
  rewrite append_cons. cbn [has_close]. by rewrite IH, orb_assoc.
Qed.

Lemma pretty_N_char_no_close (d : N) : close_command (pretty_N_char d) = false.
Proof. unfold pretty_N_char. by repeat case_match. Qed.

Lemma pretty_N_go_no_close (x : N) (s : string) :
  has_close s = false → has_close (pretty_N_go x s) = false.
Proof.
  revert s. induction (N.lt_wf_0 x) as [x _ IH]. intros s Hs.
  destruct (decide (x = 0)%N) as [->|Hx].
  - by rewrite pretty_N_go_0.
  - rewrite pretty_N_go_step by lia. apply IH.
    + apply N.div_lt; lia.
    + cbn [has_close]. by rewrite pretty_N_char_no_close, Hs.
Qed.

Lemma pretty_N_no_close (x : N) : has_close (pretty x) = false.
Proof.
  unfold pretty, pretty_N. case_decide; [done|].
  by apply pretty_N_go_no_close.
Qed.

Lemma number_to_string_no_close (n : number) : has_close (number_to_string n) = false.
Proof.
  destruct n as [| | |[|x|x]]; try done.
  - apply (pretty_N_no_close (N.pos x)).
  - change (has_close ("-" +:+ pretty (N.pos x)) = false).
    rewrite has_close_append. by rewrite pretty_N_no_close.
Qed.

Lemma numeric_point_text (p : value) :
  numeric_point p = true → ∃ t, point_text p = Normal t ∧ has_close t = false.
Proof.
  destruct p as [| | | | | |props]; try done. unfold numeric_point.
  destruct (field (JObj props) "x") as [| | |x| | |] eqn:Hx; try done.
  destruct (field (JObj props) "y") as [| | |y| | |] eqn:Hy; try done.
  intros _. exists (number_to_string x +:+ " " +:+ number_to_string y). split.
  - unfold point_text. rewrite !get_field, Hx, Hy. reflexivity.
  - rewrite !has_close_append, !number_to_string_no_close. reflexivity.
Qed.

Lemma join_no_close (parts : list string) :
  Forall (λ t, has_close t = false) parts → has_close (join " " parts) = false.
Proof.
  induction 1 as [|t parts Ht Hparts IH]; [done|].
  destruct parts as [|t' parts]; [done|].
  change (has_close (t +:+ " " +:+ join " " (t' :: parts)) = false).
  by rewrite !has_close_append, Ht, IH.
Qed.

Lemma map_points_no_close (items : list value) :
  forallb numeric_point items = true →
  ∀ i parts, map_points i items = Normal parts →
             Forall (λ t, has_close t = false) parts.
Proof.
  induction items as [|p items IH]; simpl; intros Hall i parts Hm.
  - injection Hm as <-. constructor.
  - apply andb_prop in Hall as [Hp Hitems].
    destruct (numeric_point_text _ Hp) as (t & Ht & Hclose).
    unfold point_command in Hm. rewrite Ht in Hm. simpl in Hm.
    inv_bind. subst parts. constructor; [|by eapply IH].
    destruct i; [done|].
    by rewrite has_close_append, Hclose.
Qed.

(** The data of a path over numeric points holds no closing command: the
    path stays open after its last point. *)
Lemma numeric_path_not_closed (items : list value) (d : string) :
  forallb numeric_point items = true →
  path_d (JArr items) = Normal d →
  has_close d = false.
Proof.
  intros Hall Hd. unfold path_d in Hd. inv_bind. subst d.
  rewrite has_close_append. simpl.
  apply join_no_close. by eapply map_points_no_close.
Qed.

(** * Further properties of the handlers on the pool *)

(** ** The raw handler *)

Section Raw.
Context `{JSRuntime}.

Lemma raw_invalid f id_param st :
  isFinite (StringToNumber id_param) = false →
  raw f id_param st = (json_answer 400 "Invalid image id", st).
Proof. unfold raw, raw_try. by intros ->. Qed.

Lemma raw_finite f id_param st z :
  StringToNumber id_param = Fin z →
  raw f id_param st
  = (if select_fails f then json_answer 500 "Failed to read image"
     else match images st !! z with
          | None => json_answer 404 "Image not found"
          | Some img =>
              {| answer_status := 200;
                 answer_headers := [("Content-Type", content_type_or_png (content_type img));
                                    ("Cache-Control", "no-store")];
                 answer_body := DataBody (data img) |}
          end, st).
Proof.
  unfold raw, raw_try. intros ->. run_handler.
  destruct (select_fails f); [done|]. by destruct (images st !! z).
Qed.

Lemma raw_read_only f id_param st : (raw f id_param st).2 = st.
Proof.
  destruct (StringToNumber id_param) as [| | |z] eqn:Hid;
    try (by rewrite raw_invalid by (by rewrite Hid)).
  by rewrite (raw_finite _ _ _ z).
Qed.

End Raw.

(** X1.  The raw handler never changes the store, whatever it answers; it
    answers 400 "Invalid image id" for an id that is not a finite number,
    500 "Failed to read image" when the select rejects, 404 "Image not
    found" when no record has the id, and otherwise 200 with the stored
    bytes, the stored content type ([image/png] for an empty one) and
    [Cache-Control: no-store]. *)
Theorem raw_reads_and_never_writes `{JSRuntime} (f : pool_faults)
    (id_param : string) (st : store) :
  (raw f id_param st).2 = st ∧
  (isFinite (StringToNumber id_param) = false →
   (raw f id_param st).1
   = {| answer_status := 400; answer_headers := [];
      answer_body := JsonBody (JObj [("message", JStr "Invalid image id")]) |}) ∧
  (∀ z, StringToNumber id_param = Fin z → select_fails f = true →
        (raw f id_param st).1
        = {| answer_status := 500; answer_headers := [];
           answer_body := JsonBody (JObj [("message", JStr "Failed to read image")]) |}) ∧
  (∀ z, StringToNumber id_param = Fin z → select_fails f = false →
        images st !! z = None →
        (raw f id_param st).1
        = {| answer_status := 404; answer_headers := [];
           answer_body := JsonBody (JObj [("message", JStr "Image not found")]) |}) ∧
  (∀ z img, StringToNumber id_param = Fin z → select_fails f = false →
        images st !! z = Some img →
        ∃ ct,
          (raw f id_param st).1
          = {| answer_status := 200;
               answer_headers := [("Content-Type", ct); ("Cache-Control", "no-store")];
               answer_body := DataBody (data img) |} ∧
          (content_type img = EmptyString → ct = "image/png"%string) ∧
          (content_type img ≠ EmptyString → ct = content_type img)).
Proof.
  split_and!.
  - apply raw_read_only.
  - intros Hid. by rewrite raw_invalid.
  - intros z Hid Hsel. by rewrite (raw_finite _ _ _ z), Hsel.
  - intros z Hid Hsel Hnone. by rewrite (raw_finite _ _ _ z), Hsel, Hnone.
  - intros z img Hid Hsel Himg. rewrite (raw_finite _ _ _ z), Hsel, Himg by done.
    exists (content_type_or_png (content_type img)). split; [done|].
    by destruct (content_type img).
Qed.

Example raw_of_the_sample :
  @raw digits_runtime no_faults "1" sample_store
  = ({| answer_status := 200;
        answer_headers := [("Content-Type", "image/png"); ("Cache-Control", "no-store")];
        answer_body := DataBody [x89; x50; x4e; x47] |}, sample_store).
Proof. reflexivity. Qed.

(** The answers of raw to an id that is no number, to an id without a
    record and to a select that rejects. *)
Example raw_refusals :
  @raw digits_runtime no_faults "abc" sample_store
  = ({| answer_status := 400; answer_headers := [];
        answer_body := JsonBody (JObj [("message", JStr "Invalid image id")]) |}, sample_store) ∧
  @raw digits_runtime no_faults "7" sample_store
  = ({| answer_status := 404; answer_headers := [];
        answer_body := JsonBody (JObj [("message", JStr "Image not found")]) |}, sample_store) ∧
  @raw digits_runtime
    {| select_fails := true; insert_fails := false; update_fails := false |}
    "1" sample_store
  = ({| answer_status := 500; answer_headers := [];
        answer_body := JsonBody (JObj [("message", JStr "Failed to read image")]) |}, sample_store).
Proof. repeat split. Qed.

(** ** Upload *)

Section Upload.
Context `{JSRuntime} `{Sharp}.

(** The record [upload] inserts for a file. *)
Lemma upload_cases f file st r st' :
  upload f file st = (r, st') →
  (∃ sent png,
     file = Some sent ∧
     sharp_png (buffer sent) = Normal png ∧
     insert_fails f = false ∧
     r = {| status := 201;
            json := JObj [("id", JNum (Fin (next_id st)));
                          ("url", JStr (raw_url (Fin (next_id st))))] |} ∧
     st' = {| images := <[next_id st := {| content_type := "image/png";
                                           original_name := name_or (originalname sent) None;
                                           data := png;
                                           original_image_id := None |}]> (images st);
              next_id := next_id st + 1 |})
  ∨ (st' = st ∧
     (r = message 400 "No file uploaded" ∨ r = message 500 "Failed to upload image")).
Proof.
  unfold upload, upload_try. intros Hrun.
  destruct file as [sent|]; [|injection Hrun as <- <-; auto].
  run_handler.
  destruct (sharp_png (buffer sent)) as [png|] eqn:Hpng;
    [|injection Hrun as <- <-; auto].
  destruct (insert_fails f) eqn:Hins; injection Hrun as <- <-; [auto|].
  left. exists sent, png. done.
Qed.

End Upload.

(** X2.  What a successful upload stores is what raw serves: the answer
    201 names an id under which any later raw request that reaches the
    store gets the PNG re-encoding of the uploaded buffer, as [image/png]. *)
Theorem upload_then_raw `{JSRuntime} `{Sharp} (f : pool_faults)
    (file : option upload_file) (st st' : store) (r : response) :
  upload f file st = (r, st') →
  status r = 201 →
  ∃ id sent png,
    file = Some sent ∧
    sharp_png (buffer sent) = Normal png ∧
    json r = JObj [("id", JNum (Fin id));
                   ("url", JStr ("/api/images/" +:+ pretty id +:+ "/raw"))] ∧
    ∀ f' id_param,
      select_fails f' = false →
      StringToNumber id_param = Fin id →
      raw f' id_param st' = (png_answer png, st').
Proof.
  intros Hrun Hstatus.
  destruct (upload_cases _ _ _ _ _ Hrun)
    as [(sent & png & -> & Hpng & _ & -> & ->)|[_ [->| ->]]]; try done.
  exists (next_id st), sent, png. repeat split; try done.
  intros f' id_param Hsel Hid.
  rewrite (raw_finite _ _ _ _ Hid), Hsel. simpl.
  by rewrite lookup_insert_eq.
Qed.

Lemma upload_then_raw_witness :
  ∃ id sent png,
    Some edited_file = Some sent ∧
    @sharp_png sample_sharp (buffer sent) = Normal png ∧
    json (@upload sample_sharp no_faults (Some edited_file) sample_store).1
    = JObj [("id", JNum (Fin id));
            ("url", JStr ("/api/images/" +:+ pretty id +:+ "/raw"))] ∧
    ∀ f' id_param,
      select_fails f' = false →
      @StringToNumber digits_runtime id_param = Fin id →
      @raw digits_runtime f' id_param
        (@upload sample_sharp no_faults (Some edited_file) sample_store).2
      = (png_answer png,
         (@upload sample_sharp no_faults (Some edited_file) sample_store).2).
Proof.
  apply (@upload_then_raw digits_runtime sample_sharp no_faults (Some edited_file)
           sample_store).
  - apply surjective_pairing.
  - reflexivity.
Defined.

(** X3.  On a store whose ids came from its counter, an upload either
    answers 201 and adds exactly one record, under an id that was free,
    with no parent, the content type [image/png] and the name of the file
    (null for an empty name), every other record staying as it was; or it
    answers 400 "No file uploaded" or 500 "Failed to upload image" and
    changes nothing. *)
Theorem upload_adds_one_root `{JSRuntime} `{Sharp} (f : pool_faults)
    (file : option upload_file) (st st' : store) (r : response) :
  store_wf st →
  upload f file st = (r, st') →
  (status r = 201 ∧
   ∃ id sent new,
     file = Some sent ∧
     get (json r) "id" = Normal (JNum (Fin id)) ∧
     images st !! id = None ∧
     images st' !! id = Some new ∧
     original_image_id new = None ∧
     content_type new = "image/png" ∧
     (originalname sent ≠ EmptyString → original_name new = Some (originalname sent)) ∧
     (originalname sent = EmptyString → original_name new = None) ∧
     ∀ k, k ≠ id → images st' !! k = images st !! k)
  ∨ (st' = st ∧
     (r = {| status := 400; json := JObj [("message", JStr "No file uploaded")] |} ∨
      r = {| status := 500; json := JObj [("message", JStr "Failed to upload image")] |})).
Proof.
  intros Hwf Hrun.
  destruct (upload_cases _ _ _ _ _ Hrun)
    as [(sent & png & -> & Hpng & _ & -> & ->)|Herr]; [left|by right].
  split; [done|].
  exists (next_id st), sent,
    {| content_type := "image/png";
       original_name := name_or (originalname sent) None;
       data := png;
       original_image_id := None |}.
  simpl. split_and!; try done.
  - destruct (images st !! next_id st) eqn:Hn; [|done]. apply Hwf in Hn. lia.
  - apply lookup_insert_eq.
  - by destruct (originalname sent).
  - by intros ->.
  - intros k Hk. by rewrite lookup_insert_ne.
Qed.

Lemma upload_adds_one_root_witness :
  (status (@upload sample_sharp no_faults (Some edited_file) sample_store).1 = 201 ∧
   ∃ id sent new,
     Some edited_file = Some sent ∧
     get (json (@upload sample_sharp no_faults (Some edited_file) sample_store).1) "id"
       = Normal (JNum (Fin id)) ∧
     images sample_store !! id = None ∧
     images (@upload sample_sharp no_faults (Some edited_file) sample_store).2 !! id
       = Some new ∧
     original_image_id new = None ∧
     content_type new = "image/png" ∧
     (originalname sent ≠ EmptyString → original_name new = Some (originalname sent)) ∧
     (originalname sent = EmptyString → original_name new = None) ∧
     ∀ k, k ≠ id →
       images (@upload sample_sharp no_faults (Some edited_file) sample_store).2 !! k
       = images sample_store !! k)
  ∨ ((@upload sample_sharp no_faults (Some edited_file) sample_store).2 = sample_store ∧
     ((@upload sample_sharp no_faults (Some edited_file) sample_store).1
        = {| status := 400; json := JObj [("message", JStr "No file uploaded")] |}
      ∨ (@upload sample_sharp no_faults (Some edited_file) sample_store).1
        = {| status := 500; json := JObj [("message", JStr "Failed to upload image")] |})).
Proof.
  apply (@upload_adds_one_root digits_runtime sample_sharp no_faults (Some edited_file)
           sample_store).
  - exact sample_store_wf.
  - apply surjective_pairing.
Defined.

(** An upload stores the name of the file and answers with the new id; a
    broken codec stores nothing; a request without a file is refused. *)
Example upload_of_a_named_file :
  @upload sample_sharp no_faults (Some edited_file) sample_store
  = ({| status := 201;
        json := JObj [("id", JNum (Fin 2)); ("url", JStr "/api/images/2/raw")] |},
     {| images := <[2 := {| content_type := "image/png";
                            original_name := Some "edit.jpg";
                            data := [x01; x02; x03];
                            original_image_id := None |}]> (images sample_store);
        next_id := 3 |}) ∧
  @upload broken_sharp no_faults (Some edited_file) sample_store
  = ({| status := 500; json := JObj [("message", JStr "Failed to upload image")] |}, sample_store) ∧
  @upload sample_sharp no_faults None sample_store
  = ({| status := 400; json := JObj [("message", JStr "No file uploaded")] |}, sample_store).
Proof. repeat split. Qed.

(** ** Annotate and replace, read back through raw *)

(** X4.  After a successful annotate, raw serves under the new id the
    composite of the source bytes and the rendered overlay, as
    [image/png], and serves the source as before. *)
Theorem annotate_then_raw `{JSRuntime} `{Sharp} (f : pool_faults)
    (id_param : string) (req_body : value) (st st' : store) (r : response) :
  store_wf st →
  annotate f id_param req_body st = (r, st') →
  status r = 201 →
  ∃ sourceId newId src meta svg bytes,
    StringToNumber id_param = Fin sourceId ∧
    get (json r) "id" = Normal (JNum (Fin newId)) ∧
    images st !! sourceId = Some src ∧
    sharp_metadata (data src) = Normal meta ∧
    Db.overlay meta req_body = Normal svg ∧
    sharp_composite_png (data src) (join EmptyString svg) = Normal bytes ∧
    (∀ f' new_param,
       select_fails f' = false →
       StringToNumber new_param = Fin newId →
       raw f' new_param st' = (png_answer bytes, st')) ∧
    (∀ f', (raw f' id_param st').1 = (raw f' id_param st).1).
Proof.
  intros Hwf Hrun Hstatus.
  destruct (annotate_201 _ _ _ _ _ _ Hrun Hstatus)
    as (z & src & strokes & texts & meta & svg & bytes
        & Hid & _ & Hsrc & Hstrokes & Htexts & Hmeta & Hsvg & Hbytes & _ & -> & ->).
  pose proof (Hwf _ _ Hsrc) as Hlt.
  exists z, (next_id st), src, meta, svg, bytes. split_and!; try done.
  - unfold Db.overlay. by rewrite Hstrokes, Htexts.
  - intros f' new_param Hsel Hnew.
    rewrite (raw_finite _ _ _ _ Hnew), Hsel. simpl.
    by rewrite lookup_insert_eq.
  - intros f'. rewrite !(raw_finite _ _ _ _ Hid). simpl.
    rewrite lookup_insert_ne by lia. done.
Qed.

Lemma annotate_then_raw_witness :
  ∃ sourceId newId src meta svg bytes,
    @StringToNumber digits_runtime "1" = Fin sourceId ∧
    get (json (@annotate digits_runtime sample_sharp no_faults "1"
                 sample_request sample_store).1) "id" = Normal (JNum (Fin newId)) ∧
    images sample_store !! sourceId = Some src ∧
    @sharp_metadata sample_sharp (data src) = Normal meta ∧
    @Db.overlay digits_runtime meta sample_request = Normal svg ∧
    @sharp_composite_png sample_sharp (data src) (join EmptyString svg) = Normal bytes ∧
    (∀ f' new_param,
       select_fails f' = false →
       @StringToNumber digits_runtime new_param = Fin newId →
       @raw digits_runtime f' new_param
         (@annotate digits_runtime sample_sharp no_faults "1"
            sample_request sample_store).2
       = (png_answer bytes,
          (@annotate digits_runtime sample_sharp no_faults "1"
             sample_request sample_store).2)) ∧
    (∀ f', (@raw digits_runtime f' "1"
              (@annotate digits_runtime sample_sharp no_faults "1"
                 sample_request sample_store).2).1
           = (@raw digits_runtime f' "1" sample_store).1).
Proof.
  apply (@annotate_then_raw digits_runtime sample_sharp no_faults "1"
           sample_request sample_store).
  - exact sample_store_wf.
  - apply surjective_pairing.
  - reflexivity.
Defined.

(** X5.  After a successful replace, raw serves under the same id the PNG
    re-encoding of the uploaded buffer, as [image/png], and no longer the
    bytes that the record held. *)
Theorem replace_then_raw `{JSRuntime} `{Sharp} (f : pool_faults)
    (id_param : string) (file : option upload_file) (st st' : store) (r : response) :
  replace f id_param file st = (r, st') →
  status r = 200 →
  ∃ sent png,
    file = Some sent ∧
    sharp_png (buffer sent) = Normal png ∧
    ∀ f', select_fails f' = false →
          raw f' id_param st' = (png_answer png, st').
Proof.
  intros Hrun Hstatus.
  destruct (replace_200 _ _ _ _ _ _ Hrun Hstatus)
    as (z & sent & old & png & Hid & -> & _ & _ & Hpng & _ & _ & ->).
  exists sent, png. split_and!; try done.
  intros f' Hsel. rewrite (raw_finite _ _ _ _ Hid), Hsel. simpl.
  by rewrite lookup_insert_eq.
Qed.

Lemma replace_then_raw_witness :
  ∃ sent png,
    Some edited_file = Some sent ∧
    @sharp_png sample_sharp (buffer sent) = Normal png ∧
    ∀ f', select_fails f' = false →
          @raw digits_runtime f' "2"
            (@replace digits_runtime sample_sharp no_faults "2"
               (Some edited_file) linked_store).2
          = (png_answer png,
             (@replace digits_runtime sample_sharp no_faults "2"
                (Some edited_file) linked_store).2).
Proof.
  apply (@replace_then_raw digits_runtime sample_sharp no_faults "2"
           (Some edited_file) linked_store _
           (@replace digits_runtime sample_sharp no_faults "2"
              (Some edited_file) linked_store).1).
  - apply surjective_pairing.
  - reflexivity.
Defined.

(** ** The checks of replace *)

Section ReplaceChecks.
Context `{JSRuntime} `{Sharp}.

Lemma replace_invalid_id f id_param file st :
  isFinite (StringToNumber id_param) = false →
  replace f id_param file st = (message 400 "Invalid image id", st).
Proof. unfold replace, replace_try. by intros ->. Qed.

Lemma replace_no_file f id_param st z :
  StringToNumber id_param = Fin z →
  replace f id_param None st = (message 400 "No file uploaded", st).
Proof. unfold replace, replace_try. by intros ->. Qed.

Lemma replace_not_found f id_param sent st z :
  StringToNumber id_param = Fin z →
  select_fails f = false →
  images st !! z = None →
  replace f id_param (Some sent) st = (message 404 "Image not found", st).
Proof.
  unfold replace, replace_try. intros -> Hsel Hnone. run_handler.
  by rewrite Hsel, Hnone.
Qed.

End ReplaceChecks.

(** X6.  Replace checks the id first, then the file, then the store: an id
    that is not a finite number is answered 400 "Invalid image id" even
    without a file; a finite id without a file is answered 400 "No file
    uploaded" whatever the store holds and whether or not it is reachable;
    an id with no record is answered 404 "Image not found" and no record
    is created for it; and every answer other than 200 leaves the store as
    it was. *)
Theorem replace_checks_in_order `{JSRuntime} `{Sharp} (f : pool_faults)
    (id_param : string) (file : option upload_file) (st : store) :
  (isFinite (StringToNumber id_param) = false →
   replace f id_param file st
   = ({| status := 400; json := JObj [("message", JStr "Invalid image id")] |}, st)) ∧
  (isFinite (StringToNumber id_param) = true →
   replace f id_param None st
   = ({| status := 400; json := JObj [("message", JStr "No file uploaded")] |}, st)) ∧
  (∀ z sent, StringToNumber id_param = Fin z →
             select_fails f = false →
             images st !! z = None →
             replace f id_param (Some sent) st
             = ({| status := 404; json := JObj [("message", JStr "Image not found")] |}, st)) ∧
  (status (replace f id_param file st).1 ≠ 200 → (replace f id_param file st).2 = st).
Proof.
  split_and!.
  - apply replace_invalid_id.
  - destruct (StringToNumber id_param) as [| | |z] eqn:Hid; try done.
    intros _. by apply (replace_no_file _ _ _ z).
  - intros z sent. apply replace_not_found.
  - intros Hstatus.
    exact (replace_error _ _ _ _ _ _ (surjective_pairing _) Hstatus).
Qed.

Example replace_of_missing_record :
  @replace digits_runtime sample_sharp no_faults "7" (Some edited_file) sample_store
  = ({| status := 404; json := JObj [("message", JStr "Image not found")] |}, sample_store) ∧
  @replace digits_runtime sample_sharp no_faults "abc" None sample_store
  = ({| status := 400; json := JObj [("message", JStr "Invalid image id")] |}, sample_store) ∧
  @replace digits_runtime sample_sharp
    {| select_fails := true; insert_fails := true; update_fails := true |}
    "7" None sample_store
  = ({| status := 400; json := JObj [("message", JStr "No file uploaded")] |}, sample_store).
Proof. repeat split. Qed.

(** ** What every store reached by the handlers satisfies *)

Lemma name_or_null_not_empty (name : string) : name_or name None ≠ Some EmptyString.
Proof. by destruct name. Qed.

Lemma name_or_edited_not_empty (name : string) :
  name_or name (Some "edited.png") ≠ Some EmptyString.
Proof. by destruct name. Qed.

Lemma inherited_name_not_empty (name : option string) :
  inherited_name name ≠ Some EmptyString.
Proof. destruct name as [s|]; [apply name_or_null_not_empty|done]. Qed.

Lemma is_Some_insert (m : gmap Z image) (k p : Z) (r : image) :
  is_Some (m !! p) → is_Some (<[k := r]> m !! p).
Proof.
  intros Hp. rewrite lookup_insert. by case_decide.
Qed.

Section Sound.
Context `{JSRuntime} `{Sharp}.

Lemma store_sound_empty : store_sound empty_store.
Proof.
  split; intros k r Hk; simpl in Hk; by rewrite lookup_empty in Hk.
Qed.

Lemma record_sound_insert st k p r r' :
  record_sound st k r →
  record_sound {| images := <[p := r']> (images st); next_id := next_id st + 1 |} k r.
Proof.
  intros (Hct & Hname & Henc & Hparent). split_and!; try done.
  intros q Hq. destruct (Hparent q Hq) as [Hlt Hsome].
  split; [done|]. simpl. by apply is_Some_insert.
Qed.

(** A record inserted under the next id keeps the store sound when its own
    fields are sound and its parent, if any, is in the store. *)
Lemma store_sound_insert st r :
  store_sound st →
  content_type r = "image/png" →
  original_name r ≠ Some EmptyString →
  encoded (data r) →
  (∀ p, original_image_id r = Some p → is_Some (images st !! p)) →
  store_sound {| images := <[next_id st := r]> (images st); next_id := next_id st + 1 |}.
Proof.
  intros [Hwf Hrecords] Hct Hname Henc Hparent. split.
  - by apply store_wf_insert.
  - intros k r' Hk. simpl in Hk.
    apply lookup_insert_Some in Hk as [[<- <-]|[Hne Hk]].
    + split_and!; try done. intros p Hp.
      destruct (Hparent p Hp) as [q Hq]. split.
      * by apply (Hwf p q).
      * simpl. apply is_Some_insert. by exists q.
    + apply record_sound_insert. by apply Hrecords.
Qed.

(** A record overwritten in place keeps the store sound when it keeps its
    parent and its new fields are sound. *)
Lemma store_sound_overwrite st z old r :
  store_sound st →
  images st !! z = Some old →
  content_type r = "image/png" →
  original_name r ≠ Some EmptyString →
  encoded (data r) →
  original_image_id r = original_image_id old →
  store_sound {| images := <[z := r]> (images st); next_id := next_id st |}.
Proof.
  intros [Hwf Hrecords] Hold Hct Hname Henc Hparent.
  assert (Hkeep : ∀ k r', record_sound st k r' →
            record_sound {| images := <[z := r]> (images st); next_id := next_id st |} k r').
  { intros k r' (Hct' & Hname' & Henc' & Hparent'). split_and!; try done.
    intros q Hq. destruct (Hparent' q Hq) as [Hlt Hsome].
    split; [done|]. simpl. by apply is_Some_insert. }
  split.
  - intros k r' Hk. simpl in *.
    apply lookup_insert_Some in Hk as [[<- _]|[_ Hk]]; [by apply (Hwf z old)|].
    by apply (Hwf k r').
  - intros k r' Hk. simpl in Hk.
    apply lookup_insert_Some in Hk as [[<- <-]|[Hne Hk]]; [|by apply Hkeep, Hrecords].
    apply Hkeep. destruct (Hrecords z old Hold) as (_ & _ & _ & Hold_parent).
    split_and!; try done. by rewrite Hparent.
Qed.

Lemma serve_sound f q st : store_sound st → store_sound (serve f q st).
Proof.
  intros Hsound. destruct q as [file|id_param|id_param file|id_param req_body]; simpl.
  - destruct (upload_cases f file st _ _ (surjective_pairing _))
      as [(sent & png & _ & Hpng & _ & _ & ->)|[-> _]]; [|done].
    apply store_sound_insert; simpl; try done.
    + apply name_or_null_not_empty.
    + left. by exists (buffer sent).
  - by rewrite raw_read_only.
  - destruct (decide (status (replace f id_param file st).1 = 200)) as [Hok|Hko].
    + destruct (replace_200 _ _ _ _ _ _ (surjective_pairing _) Hok)
        as (z & sent & old & png & _ & _ & _ & Hold & Hpng & _ & _ & ->).
      apply (store_sound_overwrite st z old); simpl; try done.
      * apply name_or_edited_not_empty.
      * left. by exists (buffer sent).
    + by rewrite (replace_error _ _ _ _ _ _ (surjective_pairing _) Hko).
  - destruct (decide (status (annotate f id_param req_body st).1 = 201)) as [Hok|Hko].
    + destruct (annotate_201 _ _ _ _ _ _ (surjective_pairing _) Hok)
        as (z & src & strokes & texts & meta & svg & bytes
            & _ & _ & Hsrc & _ & _ & _ & _ & Hbytes & _ & _ & ->).
      apply store_sound_insert; simpl; try done.
      * apply inherited_name_not_empty.
      * right. by exists (data src), (join EmptyString svg).
      * intros p [= <-]. by exists src.
    + by destruct (annotate_error _ _ _ _ _ _ (surjective_pairing _) Hko) as [-> _].
Qed.

Lemma serve_all_sound qs st : store_sound st → store_sound (serve_all qs st).
Proof.
  revert st. induction qs as [|[f q] qs IH]; intros st Hsound; [done|].
  simpl. by apply IH, serve_sound.
Qed.

End Sound.

(** X7.  Whatever requests are served one after the other from the empty
    table, and whichever of them fail, every record of the store has the
    content type [image/png], bytes that came out of the codec, a name that
    is null or not empty, an id below the counter, and a parent that is in
    the store under a smaller id: parent links always resolve and never
    form a cycle. *)
Theorem served_store_is_sound `{JSRuntime} `{Sharp} (qs : list (pool_faults * request)) :
  store_sound (serve_all qs empty_store).
Proof. apply serve_all_sound, store_sound_empty. Qed.

(** X8.  Two successful annotations of one source do not collide: they get
    two different ids, neither the source's; after the second, the record
    of the first is still what the first stored, both name the source as
    parent, and the source is unchanged. *)
Theorem annotations_coexist `{JSRuntime} `{Sharp} (f1 f2 : pool_faults)
    (id_param : string) (body1 body2 : value) (st st1 st2 : store) (r1 r2 : response) :
  store_wf st →
  annotate f1 id_param body1 st = (r1, st1) →
  annotate f2 id_param body2 st1 = (r2, st2) →
  status r1 = 201 →
  status r2 = 201 →
  ∃ sourceId id1 id2 src first second,
    StringToNumber id_param = Fin sourceId ∧
    get (json r1) "id" = Normal (JNum (Fin id1)) ∧
    get (json r2) "id" = Normal (JNum (Fin id2)) ∧
    id1 ≠ id2 ∧ id1 ≠ sourceId ∧ id2 ≠ sourceId ∧
    images st !! sourceId = Some src ∧
    images st2 !! sourceId = Some src ∧
    images st1 !! id1 = Some first ∧
    images st2 !! id1 = Some first ∧
    images st2 !! id2 = Some second ∧
    original_image_id first = Some sourceId ∧
    original_image_id second = Some sourceId.
Proof.
  intros Hwf Hrun1 Hrun2 Hok1 Hok2.
  destruct (annotate_201 _ _ _ _ _ _ Hrun1 Hok1)
    as (z & src & ? & ? & ? & ? & bytes1
        & Hid & _ & Hsrc & _ & _ & _ & _ & _ & _ & -> & ->).
  destruct (annotate_201 _ _ _ _ _ _ Hrun2 Hok2)
    as (z' & src' & ? & ? & ? & ? & bytes2
        & Hid' & _ & Hsrc' & _ & _ & _ & _ & _ & _ & -> & ->).
  rewrite Hid in Hid'. injection Hid' as <-.
  pose proof (Hwf _ _ Hsrc) as Hlt. simpl in *.
  rewrite lookup_insert_ne in Hsrc' by lia. rewrite Hsrc in Hsrc'. injection Hsrc' as <-.
  exists z, (next_id st), (next_id st + 1), src,
    (annotated_image z src bytes1), (annotated_image z src bytes2).
  split_and!; try done; try lia.
  - rewrite !lookup_insert_ne by lia. done.
  - apply lookup_insert_eq.
  - rewrite lookup_insert_ne by lia. apply lookup_insert_eq.
  - apply lookup_insert_eq.
Qed.

Lemma annotations_coexist_witness :
  ∃ sourceId id1 id2 src first second,
    @StringToNumber digits_runtime "1" = Fin sourceId ∧
    get (json (@annotate digits_runtime sample_sharp no_faults "1"
                 sample_request sample_store).1) "id" = Normal (JNum (Fin id1)) ∧
    get (json (@annotate digits_runtime sample_sharp no_faults "1" second_request
                 (@annotate digits_runtime sample_sharp no_faults "1"
                    sample_request sample_store).2).1) "id" = Normal (JNum (Fin id2)) ∧
    id1 ≠ id2 ∧ id1 ≠ sourceId ∧ id2 ≠ sourceId ∧
    images sample_store !! sourceId = Some src ∧
    images (@annotate digits_runtime sample_sharp no_faults "1" second_request
              (@annotate digits_runtime sample_sharp no_faults "1"
                 sample_request sample_store).2).2 !! sourceId = Some src ∧
    images (@annotate digits_runtime sample_sharp no_faults "1"
              sample_request sample_store).2 !! id1 = Some first ∧
    images (@annotate digits_runtime sample_sharp no_faults "1" second_request
              (@annotate digits_runtime sample_sharp no_faults "1"
                 sample_request sample_store).2).2 !! id1 = Some first ∧
    images (@annotate digits_runtime sample_sharp no_faults "1" second_request
              (@annotate digits_runtime sample_sharp no_faults "1"
                 sample_request sample_store).2).2 !! id2 = Some second ∧
    original_image_id first = Some sourceId ∧
    original_image_id second = Some sourceId.
Proof.
  apply (@annotations_coexist digits_runtime sample_sharp no_faults no_faults "1"
           sample_request second_request sample_store).
  - exact sample_store_wf.
  - apply surjective_pairing.
  - apply surjective_pairing.
  - reflexivity.
  - vm_compute. reflexivity.
Defined.

(** X9.  On a store reached from the empty table, every answer 200 of raw
    is a PNG answer: its content type is [image/png] (the fallback for a
    missing content type is never needed) and its bytes came out of the
    codec. *)
Theorem served_raw_is_png `{JSRuntime} `{Sharp} (qs : list (pool_faults * request))
    (f : pool_faults) (id_param : string) (a : answer) (st' : store) :
  raw f id_param (serve_all qs empty_store) = (a, st') →
  answer_status a = 200 →
  ∃ bytes, a = png_answer bytes ∧ encoded bytes.
Proof.
  intros Hrun Hstatus.
  destruct (serve_all_sound qs _ store_sound_empty) as [_ Hrecords].
  destruct (StringToNumber id_param) as [| | |z] eqn:Hid;
    try (rewrite raw_invalid in Hrun by (by rewrite Hid);
         injection Hrun as <- _; discriminate Hstatus).
  rewrite (raw_finite _ _ _ _ Hid) in Hrun.
  destruct (select_fails f); [injection Hrun as <- _; discriminate Hstatus|].
  destruct (images (serve_all qs empty_store) !! z) as [img|] eqn:Himg;
    [|injection Hrun as <- _; discriminate Hstatus].
  destruct (Hrecords z img Himg) as (Hct & _ & Henc & _).
  injection Hrun as <- _. exists (data img). split; [|done].
  unfold png_answer. by rewrite Hct.
Qed.

Lemma served_raw_is_png_witness :
  ∃ bytes,
    (@raw digits_runtime no_faults "1"
       (@serve_all digits_runtime sample_sharp
          [(no_faults, Upload (Some edited_file))] empty_store)).1 = png_answer bytes ∧
    @encoded sample_sharp bytes.
Proof.
  apply (@served_raw_is_png digits_runtime sample_sharp
           [(no_faults, Upload (Some edited_file))] no_faults "1" _
           (@raw digits_runtime no_faults "1"
              (@serve_all digits_runtime sample_sharp
                 [(no_faults, Upload (Some edited_file))] empty_store)).2).
  - apply surjective_pairing.
  - reflexivity.
Defined.

(** * Further properties of the overlay *)

Section Overlays.
Context `{JSRuntime}.

Lemma push_each_ext (f g : value → completion (option string)) (entries : list value) :
  Forall (λ e, f e = g e) entries →
  ∀ svg, push_each f svg entries = push_each g svg entries.
Proof.
  induction 1 as [|e entries He _ IH]; intros svg; [done|].
  simpl. rewrite He. destruct (g e) as [[el|]|]; simpl; auto.
Qed.

Lemma entries_agree (e : value) :
  nullish e = false →
  Fs.stroke_entry e = Db.stroke_entry e ∧ Fs.text_entry e = Db.text_entry e.
Proof. by destruct e. Qed.

Lemma bind_Normal_eq {A B} (a : A) (k : A → completion B) : Normal a ≫= k = k a.
Proof. reflexivity. Qed.

Lemma own_get (props : list (string * value)) (name : string) :
  get (JObj props) name
  = Normal (match own name props with Some w => w | None => JUndefined end).
Proof. reflexivity. Qed.

Lemma plain_list_entries (o : option value) :
  plain_list o = true →
  ∃ items,
    Fs.iterate (Fs.default_empty (match o with Some w => w | None => JUndefined end))
      = Normal items ∧
    Db.array_or_empty (match o with Some w => w | None => JUndefined end) = items ∧
    Forall (λ e, nullish e = false) items.
Proof.
  destruct o as [[| | | | |items|]|]; try done; simpl; intros Hall.
  - exists items. split_and!; try done.
    apply Forall_forall. intros e He. rewrite forallb_forall in Hall.
    apply list_elem_of_In, Hall in He. by destruct (nullish e).
  - by exists [].
Qed.

End Overlays.

(** X10.  The two applications render the same overlay, or both throw,
    for every request body that is an object whose [strokes] and [texts]
    are each absent or an array without [null] entries: on such requests
    the file-backed handler differs from the handler on the pool in
    nothing. *)
Theorem handlers_render_alike `{JSRuntime} (meta : metadata)
    (props : list (string * value)) :
  plain_list (own "strokes" props) = true →
  plain_list (own "texts" props) = true →
  Fs.overlay meta (JObj props) = Db.overlay meta (JObj props).
Proof.
  intros Hstrokes Htexts.
  destruct (plain_list_entries _ Hstrokes) as (ss & Hfs_s & Hdb_s & Hss).
  destruct (plain_list_entries _ Htexts) as (ts & Hfs_t & Hdb_t & Hts).
  destruct (svg_header_total meta) as [header Hheader].
  assert (Hfs : Fs.overlay meta (JObj props)
                = svg1 ← push_each Fs.stroke_entry [header] ss;
                  svg2 ← push_each Fs.text_entry svg1 ts;
                  Normal (svg2 ++ [svg_close])).
  { unfold Fs.overlay, Fs.request_strokes, Fs.request_texts.
    change (js_or (JObj props) (JObj [])) with (JObj props).
    rewrite !own_get, !bind_Normal_eq, Hheader, bind_Normal_eq, Hfs_s, bind_Normal_eq.
    destruct (push_each Fs.stroke_entry [header] ss) as [svg1|]; [|done].
    by rewrite !bind_Normal_eq, Hfs_t, bind_Normal_eq. }
  assert (Hdb : Db.overlay meta (JObj props)
                = svg1 ← push_each Db.stroke_entry [header] ss;
                  svg2 ← push_each Db.text_entry svg1 ts;
                  Normal (svg2 ++ [svg_close])).
  { unfold Db.overlay, Db.render, Db.request_strokes, Db.request_texts, Db.request_body.
    change (js_or (JObj props) (JObj [])) with (JObj props).
    by rewrite !own_get, !bind_Normal_eq, Hdb_s, Hdb_t, Hheader, bind_Normal_eq. }
  rewrite Hfs, Hdb.
  rewrite (push_each_ext Fs.stroke_entry Db.stroke_entry ss)
    by (eapply Forall_impl; [exact Hss|]; intros e He; by apply entries_agree).
  destruct (push_each Db.stroke_entry [header] ss) as [svg1|]; [|done].
  rewrite !bind_Normal_eq.
  by rewrite (push_each_ext Fs.text_entry Db.text_entry ts)
    by (eapply Forall_impl; [exact Hts|]; intros e He; by apply entries_agree).
Qed.

Lemma handlers_render_alike_witness :
  @Fs.overlay digits_runtime no_metadata odd_entries_request
  = @Db.overlay digits_runtime no_metadata odd_entries_request.
Proof.
  apply (@handlers_render_alike digits_runtime no_metadata
           [("strokes", JArr [JNum (Fin 3); JStr "ab"; JArr []; stroke_A; JBool true]);
            ("texts", JArr [JStr "x"; label_T])]); reflexivity.
Defined.

(** Entries that are not objects are skipped by both, one stroke and one
    label are drawn. *)
Example odd_entries_are_skipped :
  @Db.overlay digits_runtime no_metadata odd_entries_request
  = Normal [svg_open "1024" "768"; path_A; text_T; svg_close].
Proof. reflexivity. Qed.

(** X11.  A request whose strokes and labels have the shape of the data
    model is always rendered by the handler on the pool, never thrown on,
    and its overlay has exactly the opening entry, one entry per stroke of
    2 points or more, one per label with text, and the closing entry. *)
Theorem shaped_request_renders `{JSRuntime} (meta : metadata) (req_body : value)
    (strokes texts : list value) :
  Db.request_strokes req_body = Normal strokes →
  Db.request_texts req_body = Normal texts →
  forallb shaped_stroke strokes = true →
  forallb shaped_label texts = true →
  ∃ svg,
    Db.overlay meta req_body = Normal svg ∧
    length svg = (2 + length (filter (λ s, two_points s = true) strokes)
                    + length (filter (λ t, labelled t = true) texts))%nat.
Proof.
  intros Hs Ht Hstrokes Hlabels.
  destruct (Db_overlay_total meta req_body strokes texts Hs Ht Hstrokes Hlabels)
    as [svg Hsvg].
  exists svg. split; [done|].
  unfold Db.overlay in Hsvg. rewrite Hs, Ht, !bind_Normal_eq in Hsvg.
  destruct (Db_render_structure _ _ _ _ Hsvg)
    as (header & paths & labels & _ & -> & Hp & Hl).
  rewrite !length_app. simpl.
  rewrite (Forall2_length _ _ _ Hp), (Forall2_length _ _ _ Hl). lia.
Qed.

Lemma shaped_request_renders_witness :
  ∃ svg,
    @Db.overlay digits_runtime no_metadata sample_request = Normal svg ∧
    length svg
    = (2 + length (filter (λ s, two_points s = true) [stroke_A; short_stroke; stroke_B])
         + length (filter (λ t, labelled t = true) [empty_label; label_T]))%nat.
Proof.
  apply (@shaped_request_renders digits_runtime no_metadata sample_request);
    reflexivity.
Defined.

(** ** The escaping *)

Lemma occurs_append (c : ascii) (a b : string) :
  occurs c (a +:+ b) = occurs c a || occurs c b.
Proof.
  induction a as [|x a IH]; [done|].
  rewrite append_cons. cbn [occurs]. by rewrite IH, orb_assoc.
Qed.

Lemma escape_char_no_lt (c : ascii) : occurs "<" (escape_char c) = false.
Proof.
  unfold escape_char.
  destruct (Ascii.eqb_spec c "&") as [->|_]; [done|].
  destruct (Ascii.eqb_spec c "<") as [->|Hlt]; [done|].
  cbn [occurs]. rewrite orb_false_r. by apply Ascii.eqb_neq.
Qed.

(** X12.  The escaped text never holds the character [<], so the content
    of a text entry cannot open a tag; and no text entry is pushed with
    such a content. *)
Theorem escaped_text_opens_no_tag (s : string) :
  occurs "<" (escape s) = false ∧
  ∀ t el, text_label t = Normal el →
          ∃ x y color fontSize content,
            el = text_markup x y color fontSize content ∧ occurs "<" content = false.
Proof.
  assert (Hno : ∀ u, occurs "<" (escape u) = false).
  { intros u. rewrite escape_escape_each.
    induction u as [|c u IH]; [done|].
    cbn [escape_each]. by rewrite occurs_append, escape_char_no_lt, IH. }
  split; [apply Hno|].
  intros t el Ht. apply text_label_inv in Ht
    as (xv & yv & c & f & text & u & sx & sy & sc & sf
        & _ & _ & _ & _ & _ & _ & _ & _ & _ & _ & ->).
  exists sx, sy, sc, sf, (escape u). split; [done|apply Hno].
Qed.

(** X13.  The escaping loses nothing: two texts with the same escaped form
    are the same text, so the label can be recovered from the overlay. *)
Theorem escape_is_injective (s1 s2 : string) :
  escape s1 = escape s2 → s1 = s2.
Proof.
  rewrite !escape_escape_each. revert s2.
  induction s1 as [|a s1 IH]; intros [|b s2]; cbn [escape_each]; unfold escape_char.
  - done.
  - destruct (Ascii.eqb b "&"); [done|]. destruct (Ascii.eqb b "<"); done.
  - destruct (Ascii.eqb a "&"); [done|]. destruct (Ascii.eqb a "<"); done.
  - destruct (Ascii.eqb_spec a "&") as [->|Ha];
      destruct (Ascii.eqb_spec b "&") as [->|Hb].
    + intros [= Heq]. by rewrite (IH _ Heq).
    + destruct (Ascii.eqb_spec b "<") as [->|Hb']; [done|].
      intros [= Heq]. by destruct Hb.
    + destruct (Ascii.eqb_spec a "<") as [->|Ha']; [done|].
      intros [= Heq]. by destruct Ha.
    + destruct (Ascii.eqb_spec a "<") as [->|Ha'];
        destruct (Ascii.eqb_spec b "<") as [->|Hb'].
      * intros [= Heq]. by rewrite (IH _ Heq).
      * intros [= Heq]. by destruct Hb.
      * intros [= Heq]. by destruct Ha.
      * intros [= -> Heq]. by rewrite (IH _ Heq).
Qed.

Lemma escape_is_injective_witness : "A&B<C"%string = "A&B<C"%string.
Proof. apply (escape_is_injective "A&B<C" "A&B<C"). reflexivity. Defined.

(** * The role check *)

Lemma prefix_spec (t s : string) :
  String.prefix t s = true ↔ ∃ b, s = t +:+ b.
Proof.
  revert s. induction t as [|c t IH]; intros s.
  - split; [intros _; by exists s|by destruct s].
  - destruct s as [|d s]; simpl.
    + split; [done|]. by intros [b Hb].
    + destruct (ascii_dec c d) as [->|Hne].
      * rewrite IH. split.
        -- intros [b ->]. by exists b.
        -- intros [b [= ->]]. by exists b.
      * split; [done|]. intros [b [= Heq _]]. by destruct Hne.
Qed.

Lemma string_includes_spec (t s : string) :
  Auth.string_includes t s = true ↔ ∃ a b, s = a +:+ t +:+ b.
Proof.
  induction s as [|c s IH]; cbn [Auth.string_includes].
  - rewrite prefix_spec. split.
    + intros [b Hb]. by exists EmptyString, b.
    + intros ([|x a] & b & Hab); [by exists b|done].
  - rewrite orb_true_iff, prefix_spec, IH. split.
    + intros [[b Hb]|(a & b & ->)].
      * by exists EmptyString, b.
      * by exists (String c a), b.
    + intros ([|x a] & b & Hab).
      * left. by exists b.
      * right. injection Hab as -> ->. by exists a, b.
Qed.

Lemma has_role_string (r : string) (have : list string) :
  existsb (Auth.same_value_zero (JStr r)) (JStr <$> have) = true ↔ r ∈ have.
Proof.
  induction have as [|h have IH]; simpl.
  - split; [done|]. by intros ?%not_elem_of_nil.
  - rewrite orb_true_iff, IH, elem_of_cons, String.eqb_eq. done.
Qed.

Lemma some_included_array (items roleArray : list value) :
  Auth.some_included (JArr items) roleArray
  = Normal (existsb (λ role, existsb (Auth.same_value_zero role) items) roleArray).
Proof.
  induction roleArray as [|role rest IH]; [done|].
  simpl. destruct (existsb (Auth.same_value_zero role) items); [done|]. apply IH.
Qed.

Lemma shares_role (required have : list string) :
  existsb (λ role, existsb (Auth.same_value_zero role) (JStr <$> have)) (JStr <$> required)
    = true
  ↔ ∃ r, r ∈ required ∧ r ∈ have.
Proof.
  induction required as [|q required IH]; simpl.
  - split; [done|]. intros (r & Hr%not_elem_of_nil & _). done.
  - rewrite orb_true_iff, IH, has_role_string. split.
    + intros [Hq|(r & Hr & Hh)]; [exists q|exists r]; split; try done.
      * apply elem_of_cons. by left.
      * apply elem_of_cons. by right.
    + intros (r & [->|Hr]%elem_of_cons & Hh); [by left|right; by exists r].
Qed.

(** X14.  With a token whose [roles] is an array of strings, the check
    lets the request through exactly when one of the required roles is
    among the roles of the token; otherwise it answers 403 and reports the
    required and the actual roles.  A single role given as a string is
    checked as the array of that one role. *)
Theorem role_check_passes_on_a_shared_role (required have : list string)
    (role : string) (auth : value) :
  get_opt auth "roles" = Normal (JArr (JStr <$> have)) →
  (Auth.requireRole (JArr (JStr <$> required)) auth = Normal None
   ↔ ∃ r, r ∈ required ∧ r ∈ have) ∧
  ((¬ ∃ r, r ∈ required ∧ r ∈ have) →
   Auth.requireRole (JArr (JStr <$> required)) auth
   = Normal (Some {| status := 403;
                      json := JObj [("message", JStr "Forbidden: insufficient permissions");
                                    ("required", JArr (JStr <$> required));
                                    ("actual", JArr (JStr <$> have))] |})) ∧
  Auth.requireRole (JStr role) auth = Auth.requireRole (JArr [JStr role]) auth.
Proof.
  intros Hroles.
  assert (Hrun : Auth.requireRole (JArr (JStr <$> required)) auth
                 = if existsb (λ role, existsb (Auth.same_value_zero role) (JStr <$> have))
                              (JStr <$> required)
                   then Normal None
                   else Normal (Some (Auth.forbidden (JStr <$> required)
                                        (JArr (JStr <$> have))))).
  { unfold Auth.requireRole, Auth.user_roles. rewrite Hroles, !bind_Normal_eq.
    change (js_or (JArr (JStr <$> have)) (JArr [])) with (JArr (JStr <$> have)).
    simpl Auth.role_array. rewrite some_included_array, bind_Normal_eq. done. }
  split_and!.
  - rewrite Hrun, <- shares_role.
    destruct (existsb _ (JStr <$> required)); split; done.
  - intros Hnone. rewrite Hrun.
    destruct (existsb _ (JStr <$> required)) eqn:Hex; [|done].
    apply shares_role in Hex. done.
  - done.
Qed.

Lemma role_check_passes_on_a_shared_role_witness :
  (Auth.requireRole (JArr (JStr <$> ["doctor"; "nurse"])) nurse_token = Normal None
   ↔ ∃ r, r ∈ ["doctor"; "nurse"] ∧ r ∈ ["nurse"; "staff"]) ∧
  ((¬ ∃ r, r ∈ ["doctor"; "nurse"] ∧ r ∈ ["nurse"; "staff"]) →
   Auth.requireRole (JArr (JStr <$> ["doctor"; "nurse"])) nurse_token
   = Normal (Some {| status := 403;
                      json := JObj [("message", JStr "Forbidden: insufficient permissions");
                                    ("required", JArr (JStr <$> ["doctor"; "nurse"]));
                                    ("actual", JArr (JStr <$> ["nurse"; "staff"]))] |})) ∧
  Auth.requireRole (JStr "doctor") nurse_token
  = Auth.requireRole (JArr [JStr "doctor"]) nurse_token.
Proof.
  apply (role_check_passes_on_a_shared_role ["doctor"; "nurse"] ["nurse"; "staff"]
           "doctor" nurse_token).
  reflexivity.
Defined.

Example nurse_is_let_through_and_doctor_only_is_not :
  Auth.requireRole (JArr [JStr "doctor"; JStr "nurse"]) nurse_token = Normal None ∧
  Auth.requireRole (JStr "doctor") nurse_token
  = Normal (Some {| status := 403;
                     json := JObj [("message", JStr "Forbidden: insufficient permissions");
                                   ("required", JArr [JStr "doctor"]);
                                   ("actual", JArr [JStr "nurse"; JStr "staff"])] |}).
Proof. split; reflexivity. Qed.

Lemma user_roles_total (auth : value) : ∃ u, Auth.user_roles auth = Normal u.
Proof.
  unfold Auth.user_roles. destruct auth; simpl; eauto.
Qed.

(** X15.  The check refuses by default: a request with no token, or with
    a token that has no roles, is answered 403 with no actual roles,
    whatever is required; and a check that requires the empty list of
    roles answers 403 to everyone.  It never lets a request through by
    failing: a token whose [roles] is a number, [true] or an object makes
    the check throw as soon as a role is required. *)
Theorem role_check_refuses_by_default (roles auth : value) :
  (∀ r, get_opt auth "roles" = Normal r → truthy r = false →
        Auth.requireRole roles auth
        = Normal (Some {| status := 403;
                           json := JObj [("message", JStr "Forbidden: insufficient permissions");
                                         ("required",
                                          JArr (match roles with
                                                | JArr items => items
                                                | _ => [roles]
                                                end));
                                         ("actual", JArr [])] |})) ∧
  (∃ r u, get_opt auth "roles" = Normal r ∧
        (truthy r = true → u = r) ∧
        (truthy r = false → u = JArr []) ∧
        Auth.requireRole (JArr []) auth
        = Normal (Some {| status := 403;
                           json := JObj [("message", JStr "Forbidden: insufficient permissions");
                                         ("required", JArr []);
                                         ("actual", u)] |})) ∧
  (∀ r, get_opt auth "roles" = Normal r → truthy r = true →
        (∀ items, r ≠ JArr items) → (∀ s, r ≠ JStr s) →
        roles ≠ JArr [] →
        Auth.requireRole roles auth = Throw).
Proof.
  split_and!.
  - intros r Hr Hfalsy.
    unfold Auth.requireRole, Auth.user_roles.
    rewrite Hr, !bind_Normal_eq, (js_or_falsy _ _ Hfalsy).
    rewrite some_included_array, bind_Normal_eq.
    assert (Hnone : ∀ l, existsb (λ role0, existsb (Auth.same_value_zero role0) []) l = false)
      by (induction l; done).
    by rewrite Hnone.
  - assert (Hr : ∃ r, get_opt auth "roles" = Normal r) by (destruct auth; simpl; eauto).
    destruct Hr as [r Hr]. exists r, (js_or r (JArr [])). split_and!; try done.
    + intros Htruthy. by rewrite js_or_truthy.
    + intros Hfalsy. by rewrite js_or_falsy.
    + unfold Auth.requireRole, Auth.user_roles. by rewrite Hr.
  - intros r Hr Htruthy Harr Hstr Hrequired.
    assert (Hsome : Auth.role_array roles ≠ [])
      by (destruct roles as [| | | | |[|]|]; done).
    unfold Auth.requireRole, Auth.user_roles.
    rewrite Hr, !bind_Normal_eq, (js_or_truthy _ _ Htruthy).
    destruct (Auth.role_array roles) as [|role rest]; [done|].
    destruct r; try done.
    + by destruct (Hstr s).
    + by destruct (Harr items).
Qed.

Example no_token_is_refused :
  Auth.requireRole (JStr "nurse") JUndefined
  = Normal (Some {| status := 403;
                     json := JObj [("message", JStr "Forbidden: insufficient permissions");
                                   ("required", JArr [JStr "nurse"]);
                                   ("actual", JArr [])] |}) ∧
  Auth.requireRole (JArr []) nurse_token
  = Normal (Some {| status := 403;
                     json := JObj [("message", JStr "Forbidden: insufficient permissions");
                                   ("required", JArr []);
                                   ("actual", JArr [JStr "nurse"; JStr "staff"])] |}) ∧
  Auth.requireRole (JStr "nurse") (JObj [("roles", JObj [("nurse", JBool true)])])
  = Throw.
Proof. repeat split. Qed.

(** X16.  With a token whose [roles] is a string and not an array, the
    check tests for a substring: a required role passes exactly when it
    occurs somewhere inside that string, so a role that is only a part of
    the token's role is let through. *)
Theorem role_check_on_a_string_is_a_substring_test (role have : string) (auth : value) :
  get_opt auth "roles" = Normal (JStr have) →
  have ≠ EmptyString →
  (Auth.requireRole (JStr role) auth = Normal None
   ↔ ∃ before after, have = before +:+ role +:+ after).
Proof.
  intros Hroles Hhave. rewrite <- string_includes_spec.
  unfold Auth.requireRole, Auth.user_roles.
  rewrite Hroles, !bind_Normal_eq.
  assert (Htruthy : truthy (JStr have) = true) by (by destruct have).
  rewrite (js_or_truthy _ _ Htruthy). simpl.
  destruct (Auth.string_includes role have); split; done.
Qed.

Lemma role_check_on_a_string_is_a_substring_test_witness :
  Auth.requireRole (JStr "admin") string_roles_token = Normal None
  ↔ ∃ before after, "superadmin"%string = before +:+ "admin" +:+ after.
Proof.
  apply (role_check_on_a_string_is_a_substring_test "admin" "superadmin"
           string_roles_token); done.
Defined.

Example admin_passes_as_a_part_of_superadmin :
  Auth.requireRole (JStr "admin") string_roles_token = Normal None.
Proof. reflexivity. Qed.

(** * The settings of the pool *)

Lemma env_or_not_empty (env : gmap string string) (name fallback : string) :
  fallback ≠ EmptyString → Pool.env_or env name fallback ≠ EmptyString.
Proof.
  intros Hf. unfold Pool.env_or. by destruct (env !! name) as [[|c rest]|].
Qed.

(** X17.  Whatever the environment holds, the pool is created with a host,
    a database, a user and a password that are not empty: a variable that
    is set to the empty string counts as not set.  [DB_PASSWORD] wins over
    [DB_PASS], which is used only when [DB_PASSWORD] is unset or empty; and
    the port is 3306 when [DB_PORT] is unset or empty. *)
Theorem pool_settings_are_never_empty `{JSRuntime} (env : gmap string string) :
  Pool.host (Pool.createPoolFromEnv env) ≠ EmptyString ∧
  Pool.database (Pool.createPoolFromEnv env) ≠ EmptyString ∧
  Pool.user (Pool.createPoolFromEnv env) ≠ EmptyString ∧
  Pool.password (Pool.createPoolFromEnv env) ≠ EmptyString ∧
  (∀ p, env !! "DB_PASSWORD" = Some p → p ≠ EmptyString →
        Pool.password (Pool.createPoolFromEnv env) = p) ∧
  (∀ p, env !! "DB_PASSWORD" = None ∨ env !! "DB_PASSWORD" = Some EmptyString →
        env !! "DB_PASS" = Some p → p ≠ EmptyString →
        Pool.password (Pool.createPoolFromEnv env) = p) ∧
  (env !! "DB_PORT" = None ∨ env !! "DB_PORT" = Some EmptyString →
   Pool.port (Pool.createPoolFromEnv env) = Fin 3306).
Proof.
  split_and!; simpl.
  - by apply env_or_not_empty.
  - by apply env_or_not_empty.
  - by apply env_or_not_empty.
  - apply env_or_not_empty. by apply env_or_not_empty.
  - intros p Hp Hne. unfold Pool.env_or at 1. rewrite Hp. by destruct p.
  - intros p Hpw Hp Hne. unfold Pool.env_or.
    destruct Hpw as [-> | ->]; rewrite Hp; by destruct p.
  - unfold Pool.env_port. by intros [-> | ->].
Qed.

Example pool_with_an_empty_password_variable :
  Pool.password (@Pool.createPoolFromEnv digits_runtime
                   {[ "DB_PASSWORD" := EmptyString; "DB_PASS" := "s3cret"%string ]})
  = "s3cret"%string ∧
  Pool.port (@Pool.createPoolFromEnv digits_runtime {[ "DB_PORT" := "3307"%string ]})
  = Fin 3307 ∧
  Pool.port (@Pool.createPoolFromEnv digits_runtime {[ "DB_PORT" := "mysql"%string ]})
  = NaN.
Proof. repeat split. Qed.

(** * The names of uploaded files *)

Lemma sanitize_char_safe (c : ascii) :
  Files.safe_char (if Files.safe_char c then c else "_"%char) = true.
Proof. by destruct (Files.safe_char c) eqn:Hc. Qed.

Lemma occurs_sanitize (c : ascii) (s : string) :
  occurs c (Files.sanitize s) = true → Files.safe_char c = true.
Proof.
  induction s as [|a s IH]; [done|].
  cbn [Files.sanitize occurs]. intros [Ha|Hs]%orb_prop; [|by apply IH].
  apply Ascii.eqb_eq in Ha. subst c. apply sanitize_char_safe.
Qed.

Lemma unsafe_not_in_sanitize (c : ascii) (s : string) :
  Files.safe_char c = false → occurs c (Files.sanitize s) = false.
Proof.
  intros Hc. destruct (occurs c (Files.sanitize s)) eqn:Ho; [|done].
  apply occurs_sanitize in Ho. congruence.
Qed.

(** X18.  The base of a stored file name is made of letters, digits, [-]
    and [_] only, whatever the client named the file: it has the length of
    the original base, no dot, no slash and no backslash, and sanitizing
    it again changes nothing. *)
Theorem sanitized_base_is_safe (s : string) :
  String.length (Files.sanitize s) = String.length s ∧
  (∀ c, occurs c (Files.sanitize s) = true → Files.safe_char c = true) ∧
  occurs "." (Files.sanitize s) = false ∧
  occurs "/" (Files.sanitize s) = false ∧
  occurs "\" (Files.sanitize s) = false ∧
  Files.sanitize (Files.sanitize s) = Files.sanitize s.
Proof.
  split_and!.
  - induction s as [|a s IH]; [done|]. simpl. by rewrite IH.
  - intros c. apply occurs_sanitize.
  - by apply unsafe_not_in_sanitize.
  - by apply unsafe_not_in_sanitize.
  - by apply unsafe_not_in_sanitize.
  - induction s as [|a s IH]; [done|]. cbn [Files.sanitize].
    rewrite IH, sanitize_char_safe. done.
Qed.

Example sanitize_a_path_like_name :
  Files.sanitize "../etc/my photo" = "___etc_my_photo"%string.
Proof. reflexivity. Qed.

Lemma pretty_N_char_not_dot (d : N) : Ascii.eqb (pretty_N_char d) "." = false.
Proof. unfold pretty_N_char. by repeat case_match. Qed.

Lemma pretty_N_go_no_dot (x : N) (s : string) :
  occurs "." s = false → occurs "." (pretty_N_go x s) = false.
Proof.
  revert s. induction (N.lt_wf_0 x) as [x _ IH]. intros s Hs.
  destruct (decide (x = 0)%N) as [->|Hx].
  - by rewrite pretty_N_go_0.
  - rewrite pretty_N_go_step by lia. apply IH.
    + apply N.div_lt; lia.
    + cbn [occurs]. by rewrite pretty_N_char_not_dot, Hs.
Qed.

Lemma pretty_Z_no_dot (z : Z) : occurs "." (pretty z) = false.
Proof.
  assert (Hn : ∀ x : N, occurs "." (pretty x) = false).
  { intros x. unfold pretty, pretty_N. case_decide; [done|].
    by apply pretty_N_go_no_dot. }
  destruct z as [|x|x]; [done|apply (Hn (N.pos x))|].
  change (occurs "." ("-" +:+ pretty (N.pos x)) = false).
  by rewrite occurs_append, Hn.
Qed.

(** The pattern matches at the last dot when something without a dot
    follows it, wherever the dots before it are. *)
Lemma strip_extension_last_dot (a x : string) :
  x ≠ EmptyString → occurs "." x = false →
  Files.strip_extension (a +:+ String "." x) = a.
Proof.
  intros Hx Hdots. induction a as [|c a IH].
  - change (Files.strip_extension (String "." x) = EmptyString).
    cbn [Files.strip_extension]. rewrite Hdots.
    destruct x; [done|reflexivity].
  - rewrite append_cons. cbn [Files.strip_extension].
    rewrite occurs_append. cbn [occurs]. rewrite Ascii.eqb_refl.
    rewrite orb_true_r, andb_false_r. by rewrite IH.
Qed.

(** The pattern does not match a name that ends with its only dot. *)
Lemma strip_extension_final_dot (a : string) :
  occurs "." a = false →
  Files.strip_extension (a +:+ ".") = a +:+ ".".
Proof.
  induction a as [|c a IH]; [done|].
  rewrite append_cons. cbn [Files.strip_extension occurs].
  intros [Hc Ha]%orb_false_elim. rewrite Ascii.eqb_sym in Hc.
  rewrite Ascii.eqb_sym, Hc. simpl. by rewrite IH.
Qed.

Lemma stored_base_no_dot (timestamp : Z) (base : string) :
  occurs "." (pretty timestamp +:+ "-" +:+ Files.sanitize base) = false.
Proof.
  rewrite !occurs_append, pretty_Z_no_dot. simpl.
  by apply unsafe_not_in_sanitize.
Qed.

(** X19.  The name under which an upload is kept as PNG is the timestamp,
    a dash, the sanitized base and [.png]: the extension of the client,
    whatever it is, is replaced, and a file with no extension or with the
    extension [.png] keeps the name it was stored under.  Only an
    extension that is a bare dot stays in the name, before [.png]. *)
Theorem png_name_of_an_upload (timestamp : Z) (base ext x : string) :
  ext = EmptyString ∨ (ext = String "." x ∧ x ≠ EmptyString ∧ occurs "." x = false) →
  Files.png_name (Files.stored_filename timestamp base ext)
    = pretty timestamp +:+ "-" +:+ Files.sanitize base +:+ ".png" ∧
  Files.png_name (Files.stored_filename timestamp base ".")
    = pretty timestamp +:+ "-" +:+ Files.sanitize base +:+ "..png" ∧
  (Files.png_name (Files.stored_filename timestamp base ext)
     = Files.stored_filename timestamp base ext
   ↔ ext = EmptyString ∨ ext = ".png"%string).
Proof.
  intros Hext.
  assert (Hstrip : ∀ y, y ≠ EmptyString → occurs "." y = false →
            Files.png_name (pretty timestamp +:+ "-" +:+ Files.sanitize base +:+ String "." y)
            = pretty timestamp +:+ "-" +:+ Files.sanitize base +:+ ".png").
  { intros y Hy Hdots. unfold Files.png_name.
    rewrite <- !append_assoc, strip_extension_last_dot by done.
    by rewrite !append_assoc. }
  assert (Hname : Files.png_name (Files.stored_filename timestamp base ext)
                  = pretty timestamp +:+ "-" +:+ Files.sanitize base +:+ ".png").
  { unfold Files.stored_filename.
    destruct Hext as [->|(-> & Hx & Hdots)]; [by apply Hstrip|].
    by apply Hstrip. }
  split_and!.
  - exact Hname.
  - unfold Files.png_name, Files.stored_filename. cbn [Files.ext_or_png].
    rewrite <- !append_assoc, strip_extension_final_dot
      by (rewrite append_assoc; apply stored_base_no_dot).
    by rewrite !append_assoc.
  - rewrite Hname. unfold Files.stored_filename.
    destruct Hext as [->|(-> & Hx & Hdots)]; cbn [Files.ext_or_png].
    + split; [by left|done].
    + rewrite <- !append_assoc. split.
      * intros Heq%(inj (String.app _)). right. by rewrite Heq.
      * intros [?|Heq]; [done|]. by rewrite Heq.
Qed.

Lemma png_name_of_an_upload_witness :
  Files.png_name (Files.stored_filename 1700000000000 "my photo" ".jpg")
    = pretty 1700000000000 +:+ "-" +:+ Files.sanitize "my photo" +:+ ".png" ∧
  Files.png_name (Files.stored_filename 1700000000000 "my photo" ".")
    = pretty 1700000000000 +:+ "-" +:+ Files.sanitize "my photo" +:+ "..png" ∧
  (Files.png_name (Files.stored_filename 1700000000000 "my photo" ".jpg")
     = Files.stored_filename 1700000000000 "my photo" ".jpg"
   ↔ ".jpg"%string = EmptyString ∨ ".jpg"%string = ".png"%string).
Proof.
  apply (png_name_of_an_upload 1700000000000 "my photo" ".jpg" "jpg").
  right. done.
Defined.

Example photo_jpg_is_kept_as_png :
  Files.png_name (Files.stored_filename 1700000000000 "my photo" ".jpg")
  = "1700000000000-my_photo.png"%string.
Proof. reflexivity. Qed.

(** * Records over a run of requests *)

Section Runs.
Context `{JSRuntime} `{Sharp}.

Lemma serve_wf f q st : store_wf st → store_wf (serve f q st).
Proof.
  intros Hwf. destruct q as [file|id_param|id_param file|id_param req_body]; simpl.
  - eapply store_wf_upload; [done|apply surjective_pairing].
  - by rewrite raw_read_only.
  - eapply store_wf_replace; [done|apply surjective_pairing].
  - eapply store_wf_annotate; [done|apply surjective_pairing].
Qed.

Lemma insert_fresh_keeps st k r new :
  store_wf st →
  images st !! k = Some r →
  <[next_id st := new]> (images st) !! k = Some r.
Proof.
  intros Hwf Hk. pose proof (Hwf _ _ Hk). rewrite lookup_insert_ne by lia. done.
Qed.

(** One request keeps every record, with its parent link. *)
Lemma serve_keeps f q st k r :
  store_wf st →
  images st !! k = Some r →
  ∃ r', images (serve f q st) !! k = Some r' ∧
        original_image_id r' = original_image_id r.
Proof.
  intros Hwf Hk. destruct q as [file|id_param|id_param file|id_param req_body]; simpl.
  - destruct (upload_cases f file st _ _ (surjective_pairing _))
      as [(sent & png & _ & _ & _ & _ & ->)|[-> _]]; [|by exists r].
    exists r. split; [|done]. simpl. by apply insert_fresh_keeps.
  - rewrite raw_read_only. by exists r.
  - destruct (replace_preserves_links f id_param file st _ _ (surjective_pairing _))
      as [_ Hlinks].
    specialize (Hlinks k). rewrite Hk in Hlinks. simpl in Hlinks.
    destruct (images (replace f id_param file st).2 !! k) as [r'|]; [|done].
    exists r'. split; [done|]. by injection Hlinks.
  - destruct (decide (status (annotate f id_param req_body st).1 = 201)) as [Hok|Hko].
    + destruct (annotate_201 _ _ _ _ _ _ (surjective_pairing _) Hok)
        as (z & src & strokes & texts & meta & svg & bytes
            & _ & _ & _ & _ & _ & _ & _ & _ & _ & _ & ->).
      exists r. split; [|done]. simpl. by apply insert_fresh_keeps.
    + destruct (annotate_error _ _ _ _ _ _ (surjective_pairing _) Hko) as [-> _].
      by exists r.
Qed.

End Runs.

(** X20.  No request deletes a record or changes a parent link: on a
    store whose ids came from its counter, a record that exists still
    exists after any run of requests, under the same id and with the same
    parent. *)
Theorem records_and_links_persist `{JSRuntime} `{Sharp}
    (qs : list (pool_faults * request)) (st : store) (k : Z) (r : image) :
  store_wf st →
  images st !! k = Some r →
  ∃ r', images (serve_all qs st) !! k = Some r' ∧
        original_image_id r' = original_image_id r.
Proof.
  revert st r. induction qs as [|[f q] qs IH]; intros st r Hwf Hk; simpl.
  - by exists r.
  - destruct (serve_keeps f q st k r Hwf Hk) as (r1 & Hk1 & Hp1).
    destruct (IH _ r1 (serve_wf f q st Hwf) Hk1) as (r' & Hk' & Hp').
    exists r'. split; [done|]. by rewrite Hp'.
Qed.

Lemma records_and_links_persist_witness :
  ∃ r', images (@serve_all digits_runtime sample_sharp
                  [(no_faults, Replace "2" (Some edited_file));
                   (no_faults, Annotate "2" sample_request);
                   (no_faults, Upload None)] linked_store) !! 2 = Some r' ∧
        original_image_id r' = original_image_id derived_image.
Proof.
  apply (@records_and_links_persist digits_runtime sample_sharp
           [(no_faults, Replace "2" (Some edited_file));
            (no_faults, Annotate "2" sample_request);
            (no_faults, Upload None)] linked_store 2 derived_image).
  - intros k r Hk. unfold linked_store in Hk. simpl in Hk.
    apply lookup_insert_Some in Hk as [[<- _]|[_ Hk]]; [reflexivity|].
    apply lookup_singleton_Some in Hk as [<- _]. reflexivity.
  - reflexivity.
Defined.

(** X21.  An annotation is a snapshot: after a successful annotate, a
    successful replace of the source changes the bytes that raw serves for
    the source and leaves the annotated record, bytes included, exactly as
    the annotate stored it, still naming the replaced record as parent. *)
Theorem annotation_is_a_snapshot `{JSRuntime} `{Sharp} (f1 f2 : pool_faults)
    (id_param : string) (req_body : value) (file : option upload_file)
    (st st1 st2 : store) (r1 r2 : response) :
  store_wf st →
  annotate f1 id_param req_body st = (r1, st1) →
  replace f2 id_param file st1 = (r2, st2) →
  status r1 = 201 →
  status r2 = 200 →
  ∃ sourceId newId derived sent png replaced,
    StringToNumber id_param = Fin sourceId ∧
    get (json r1) "id" = Normal (JNum (Fin newId)) ∧
    images st1 !! newId = Some derived ∧
    images st2 !! newId = Some derived ∧
    original_image_id derived = Some sourceId ∧
    file = Some sent ∧
    sharp_png (buffer sent) = Normal png ∧
    images st2 !! sourceId = Some replaced ∧
    data replaced = png.
Proof.
  intros Hwf Hrun1 Hrun2 Hok1 Hok2.
  destruct (annotate_201 _ _ _ _ _ _ Hrun1 Hok1)
    as (z & src & ? & ? & ? & ? & bytes
        & Hid & _ & Hsrc & _ & _ & _ & _ & _ & _ & -> & ->).
  destruct (replace_200 _ _ _ _ _ _ Hrun2 Hok2)
    as (z' & sent & old & png & Hid' & -> & _ & Hold & Hpng & _ & _ & ->).
  rewrite Hid in Hid'. injection Hid' as <-.
  pose proof (Hwf _ _ Hsrc) as Hlt. simpl in *.
  exists z, (next_id st), (annotated_image z src bytes), sent, png,
    (replaced_image old sent png).
  split_and!; try done.
  - apply lookup_insert_eq.
  - rewrite lookup_insert_ne by lia. apply lookup_insert_eq.
  - apply lookup_insert_eq.
Qed.

Lemma annotation_is_a_snapshot_witness :
  ∃ sourceId newId derived sent png replaced,
    @StringToNumber digits_runtime "1" = Fin sourceId ∧
    get (json (@annotate digits_runtime sample_sharp no_faults "1"
                 sample_request sample_store).1) "id" = Normal (JNum (Fin newId)) ∧
    images (@annotate digits_runtime sample_sharp no_faults "1"
              sample_request sample_store).2 !! newId = Some derived ∧
    images (@replace digits_runtime sample_sharp no_faults "1" (Some edited_file)
              (@annotate digits_runtime sample_sharp no_faults "1"
                 sample_request sample_store).2).2 !! newId = Some derived ∧
    original_image_id derived = Some sourceId ∧
    Some edited_file = Some sent ∧
    @sharp_png sample_sharp (buffer sent) = Normal png ∧
    images (@replace digits_runtime sample_sharp no_faults "1" (Some edited_file)
              (@annotate digits_runtime sample_sharp no_faults "1"
                 sample_request sample_store).2).2 !! sourceId = Some replaced ∧
    data replaced = png.
Proof.
  apply (@annotation_is_a_snapshot digits_runtime sample_sharp no_faults no_faults "1"
           sample_request (Some edited_file) sample_store _ _
           (@annotate digits_runtime sample_sharp no_faults "1"
              sample_request sample_store).1
           (@replace digits_runtime sample_sharp no_faults "1" (Some edited_file)
              (@annotate digits_runtime sample_sharp no_faults "1"
                 sample_request sample_store).2).1).
  - exact sample_store_wf.
  - apply surjective_pairing.
  - apply surjective_pairing.
  - reflexivity.
  - vm_compute. reflexivity.
Defined.
